(** * EcommerceCrawler: the crawl frontier of [service.ts]

    A shallow embedding of the URL helpers ([isProductUrl], [isListingUrl],
    [normalizeUrl]) and of the [EcommerceCrawler] class: its constructor, the
    default (listing) route handler with its [transformRequestFunction], the
    [detail] route handler and [run].

    JavaScript strings are Rocq strings, [Set<string>] is a [gset string],
    an exception is an explicit outcome, and the fields of the crawler object
    are passed from call to call. *)

From Stdlib Require Import ZArith NArith Ascii String List Bool Lia.
From Stdlib Require Import DecimalString HexadecimalString.
From stdpp Require Import base option list strings gmap.

Set Warnings "-register-all".

Open Scope string_scope.
Open Scope Z_scope.

(** ** Outcomes of JavaScript evaluation *)

Inductive exn : Type :=
  | TypeError
  | SyntaxError.

Inductive outcome (A : Type) : Type :=
  | Ret (a : A)
  | Throw (e : exn).
Arguments Ret {A} a.
Arguments Throw {A} e.

Definition obind {A B} (o : outcome A) (k : A → outcome B) : outcome B :=
  match o with
  | Ret a => k a
  | Throw e => Throw e
  end.

(** [Array.prototype.some] with a callback that may throw: the callback is
    run on the elements from left to right, and the first [true] or the first
    exception ends the loop. *)
Fixpoint Array_some {A} (f : A → outcome bool) (l : list A) : outcome bool :=
  match l with
  | [] => Ret false
  | x :: l' => obind (f x) (λ b, if b then Ret true else Array_some f l')
  end.

(** ** Characters *)

Module Chars.
Local Open Scope N_scope.

Definition code (c : ascii) : N := N_of_ascii c.
Definition in_range (lo hi : N) (c : ascii) : bool :=
  (lo <=? code c) && (code c <=? hi).
Definition one_of_codes (l : list N) (c : ascii) : bool :=
  existsb (N.eqb (code c)) l.
Definition one_of (s : string) (c : ascii) : bool :=
  existsb (Ascii.eqb c) (list_ascii_of_string s).
Definition is_char (s : string) (c : ascii) : bool := one_of s c.

Definition is_upper : ascii → bool := in_range 65 90.
Definition is_lower : ascii → bool := in_range 97 122.
Definition is_alpha (c : ascii) : bool := is_upper c || is_lower c.
Definition is_digit : ascii → bool := in_range 48 57.
Definition is_alnum (c : ascii) : bool := is_alpha c || is_digit c.
Definition is_hex_digit (c : ascii) : bool :=
  is_digit c || in_range 65 70 c || in_range 97 102 c.
Definition to_lower (c : ascii) : ascii :=
  if is_upper c then ascii_of_N (code c + 32) else c.
Definition lowercase (l : list ascii) : list ascii := map to_lower l.

Definition leq (a b : list ascii) : bool := bool_decide (a = b).
Definition chars (s : string) : list ascii := list_ascii_of_string s.
Definition starts_with (p l : list ascii) : bool := leq (take (length p) l) p.

Definition hex_value (c : ascii) : N :=
  if is_digit c then code c - 48
  else if is_upper c then code c - 55 else code c - 87.

(** The value of a digit string in the radix; [None] when a character is
    not a digit of the radix. *)
Definition digits_value (radix : N) (l : list ascii) : option N :=
  fold_left (λ acc c,
    match acc with
    | Some v => if is_hex_digit c && (hex_value c <? radix)
                then Some (v * radix + hex_value c) else None
    | None => None
    end) l (Some 0).

(** The longest prefix without a character of [stop], and the rest, which
    is empty or starts with the first character of [stop]. *)
Fixpoint span_until (stop : ascii → bool) (l : list ascii) : list ascii * list ascii :=
  match l with
  | [] => ([], [])
  | c :: rest =>
      if stop c then ([], l)
      else let '(a, b) := span_until stop rest in (c :: a, b)
  end.

(** Strictly split on the separator: always at least one item. *)
Fixpoint split_on (sep : ascii → bool) (l : list ascii) : list (list ascii) :=
  match l with
  | [] => [[]]
  | c :: rest =>
      match split_on sep rest with
      | item :: items => if sep c then [] :: item :: items else (c :: item) :: items
      | [] => [[c]]
      end
  end.

Fixpoint drop_while (p : ascii → bool) (l : list ascii) : list ascii :=
  match l with
  | c :: rest => if p c then drop_while p rest else l
  | [] => []
  end.

End Chars.

(** ** The runtime the crawler is written against

    [service.ts] calls two built-ins of the JavaScript runtime:
    [new URL(url, base).href] and [new RegExp(pattern).test(s)].  The
    embedding takes them as an interface.  [WhatwgRuntime], further down,
    implements it after the URL Standard and the ECMAScript pattern
    grammar, and is what the crawler is evaluated with on concrete inputs. *)

Class JsRuntime : Type := {
  (** [new URL(url, base).href]; [None] when the constructor throws. *)
  URL_href : string → string → option string;
  (** Compiled regular expressions. *)
  RegExp : Type;
  (** [new RegExp(pattern)]; [None] when the constructor throws. *)
  RegExp_new : string → option RegExp;
  (** [regex.test(s)] for a regular expression without flags. *)
  RegExp_test : RegExp → string → bool;
}.

(** ** The rendered page

    The [detail] handler runs two DOM queries inside [page.evaluate]:
    [document.querySelectorAll(".rilrtl-products-list__item")] and
    [card.querySelector("a[href]")].  A document is a forest of elements
    with the tag and attribute names in lower case, as the HTML parser
    leaves them.  The selectors modelled are the compound selectors made of
    a type, classes and attribute-presence tests, which covers the two
    selectors of the handler; every other selector string is a
    [SyntaxError]. *)

Module Dom.
Import Chars.

Inductive Element : Type :=
  | Elem (tagName : string) (attributes : list (string * string)) (children : list Element).

Definition tagName (e : Element) : string := let 'Elem t _ _ := e in t.
Definition attributes (e : Element) : list (string * string) := let 'Elem _ a _ := e in a.
Definition children (e : Element) : list Element := let 'Elem _ _ c := e in c.

Record Document : Type := {
  (** The document base URL, against which [href] attributes are resolved. *)
  baseURI : string;
  roots : list Element;
}.

Fixpoint getAttribute (name : string) (attrs : list (string * string)) : option string :=
  match attrs with
  | [] => None
  | (n, v) :: rest => if String.eqb n name then Some v else getAttribute name rest
  end.

Definition is_ascii_whitespace (c : ascii) : bool := one_of_codes [9; 10; 12; 13; 32]%N c.

(** The class names of an element: its [class] attribute split on ASCII
    whitespace. *)
Definition classList (e : Element) : list (list ascii) :=
  match getAttribute "class" (attributes e) with
  | Some v => filter (λ w, w ≠ []) (split_on is_ascii_whitespace (chars v))
  | None => []
  end.

Inductive simple_selector : Type :=
  | TypeSelector (name : list ascii)
  | ClassSelector (name : list ascii)
  | AttributeSelector (name : list ascii).

Definition is_ident_char (c : ascii) : bool := is_alnum c || one_of "-_" c.

(** An identifier at the head of the input, with the input after it. *)
Definition ident (l : list ascii) : option (list ascii * list ascii) :=
  match span_until (λ c, negb (is_ident_char c)) l with
  | (c :: name, rest) => if is_digit c then None else Some (c :: name, rest)
  | ([], _) => None
  end.

(** The class and attribute selectors after the optional type selector. *)
Fixpoint subclass_selectors (fuel : nat) (l : list ascii) : option (list simple_selector) :=
  match fuel, l with
  | _, [] => Some []
  | O, _ => None
  | S fuel, c :: rest =>
      if is_char "." c then
        '(name, rest') ← ident rest;
        sels ← subclass_selectors fuel rest';
        Some (ClassSelector name :: sels)
      else if is_char "[" c then
        '(name, rest') ← ident rest;
        match rest' with
        | d :: rest'' =>
            if is_char "]" d
            then sels ← subclass_selectors fuel rest''; Some (AttributeSelector (lowercase name) :: sels)
            else None
        | [] => None
        end
      else None
  end.

Definition parse_selector (selector : string) : option (list simple_selector) :=
  let l := chars selector in
  match l with
  | [] => None
  | c :: _ =>
      if one_of ".[" c then subclass_selectors (length l) l
      else
        '(name, rest) ← ident l;
        sels ← subclass_selectors (length l) rest;
        Some (TypeSelector (lowercase name) :: sels)
  end.

Definition matches_simple (e : Element) (s : simple_selector) : bool :=
  match s with
  | TypeSelector name => leq (chars (tagName e)) name
  | ClassSelector name => existsb (leq name) (classList e)
  | AttributeSelector name =>
      bool_decide (is_Some (getAttribute (string_of_list_ascii name) (attributes e)))
  end.

(** An element and its descendants, in document order. *)
Fixpoint subtree (e : Element) : list Element :=
  match e with
  | Elem _ _ cs => e :: flat_map subtree cs
  end.

Definition select (selector : string) (candidates : list Element) : outcome (list Element) :=
  match parse_selector selector with
  | Some sels => Ret (List.filter (λ e, forallb (matches_simple e) sels) candidates)
  | None => Throw SyntaxError
  end.

(** [document.querySelectorAll(selector)] *)
Definition document_querySelectorAll (d : Document) (selector : string)
    : outcome (list Element) :=
  select selector (flat_map subtree (roots d)).

(** [element.querySelector(selector)]: the first matching descendant. *)
Definition querySelector (e : Element) (selector : string) : outcome (option Element) :=
  obind (select selector (flat_map subtree (children e))) (λ l, Ret (head l)).

(** The [href] property of an anchor: the [href] attribute resolved against
    the document base URL, the attribute as it is when it cannot be
    resolved, and the empty string without the attribute. *)
Definition href `{JsRuntime} (d : Document) (e : Element) : string :=
  match getAttribute "href" (attributes e) with
  | None => ""
  | Some v =>
      match URL_href v (baseURI d) with
      | Some h => h
      | None => v
      end
  end.

End Dom.

(** ** The helpers of [service.ts] *)

Section Helpers.
Context `{JsRuntime}.

(** [new RegExp(pattern)] as an outcome. *)
Definition new_RegExp (pattern : string) : outcome RegExp :=
  match RegExp_new pattern with
  | Some regex => Ret regex
  | None => Throw SyntaxError
  end.

Definition isProductUrl (url : string) (patterns : list string) : outcome bool :=
  Array_some (λ pattern,
    obind (new_RegExp pattern) (λ regex,
    Ret (RegExp_test regex url))) patterns.

Definition isListingUrl (url : string) (patterns : list string) : outcome bool :=
  Array_some (λ pattern,
    obind (new_RegExp pattern) (λ regex,
    Ret (RegExp_test regex url))) patterns.

(** [try { return new URL(url, baseUrl).href; } catch (error) { return ""; }] *)
Definition normalizeUrl (url baseUrl : string) : string :=
  match URL_href url baseUrl with
  | Some href => href
  | None => ""
  end.

End Helpers.

(** ** Configuration and crawler object *)

(** An optional numeric property of an object literal: the property is
    absent, or it is present with the value [undefined], which the type
    [maxPages?: number] admits, or with a number.  The page counts of the
    crawler are integers. *)
Inductive optional_number : Type :=
  | absent
  | undefined
  | number (n : Z).

Record CrawlerConfig : Type := {
  startUrls : list string;
  productListingUrlPatterns : list string;
  productCardSelectors : list string;
  productUrlPatterns : list string;
  paginationSelectors : list string;
  productLinkSelectors : list string;
  (** [maxPages?: number] *)
  maxPages : optional_number;
}.

Record EcommerceCrawler : Type := {
  config : CrawlerConfig;
  processedUrls : gset string;
  pageCount : Z;
}.

(** [this.config = { maxPages: 1000, ...config }]: the spread copies every
    own property of [config] over the default, also a [maxPages] whose
    value is [undefined].  This comes after the field
    initialisers [processedUrls = new Set()] and [pageCount = 0]. *)
Definition constructor (cfg : CrawlerConfig) : EcommerceCrawler :=
  {| config :=
       {| startUrls := startUrls cfg;
          productListingUrlPatterns := productListingUrlPatterns cfg;
          productCardSelectors := productCardSelectors cfg;
          productUrlPatterns := productUrlPatterns cfg;
          paginationSelectors := paginationSelectors cfg;
          productLinkSelectors := productLinkSelectors cfg;
          maxPages := match maxPages cfg with
                      | absent => number 1000
                      | present => present
                      end |};
     processedUrls := ∅;
     pageCount := 0 |}.

(** [this.processedUrls.add(url)] *)
Definition processedUrls_add (url : string) (this : EcommerceCrawler) : EcommerceCrawler :=
  {| config := config this;
     processedUrls := {[url]} ∪ processedUrls this;
     pageCount := pageCount this |}.

(** ** Requests, pages and the two route handlers *)

(** The request options that [enqueueLinks] builds for a link and passes to
    [transformRequestFunction]. *)
Record Request : Type := {
  url : string;
  label : option string;
}.

(** What the engine hands to a route handler: the label of the request
    that was fetched, [request.loadedUrl], the URLs of the links that
    [enqueueLinks] finds on the page, in the order it visits them, and the
    rendered document. *)
Record Page : Type := {
  request_label : option string;
  loadedUrl : option string;
  links : list string;
  document : Dom.Document;
}.

Record ProductRecord : Type := {
  link : option string;
}.

Inductive LogEntry : Type :=
  | Info_processing (loadedUrl : option string)
  | Info_extracted (products : list ProductRecord)
  | Error_processing (loadedUrl : option string) (e : exn).

(** The result of a handler call: the requests returned to the engine for
    enqueueing, or the exception that ended the handler, and the lines
    logged. *)
Record HandlerResult : Type := {
  enqueued : outcome (list Request);
  logged : list LogEntry;
}.

Section Crawler.
Context `{JsRuntime}.

(** The arrow function passed as [transformRequestFunction], closed over
    [baseUrl] and [this].  The result is the crawler object after the call
    and [Ret (Some req)] for [return req], [Ret None] for [return false],
    or the exception thrown by [isListingUrl]. *)
Definition transformRequestFunction (baseUrl : string) (req : Request)
    (this : EcommerceCrawler) : EcommerceCrawler * outcome (option Request) :=
  let url := normalizeUrl (url req) baseUrl in
  if decide (url ∈ processedUrls this) then (this, Ret None)
  else
    match isListingUrl url (productListingUrlPatterns (config this)) with
    | Throw e => (this, Throw e)
    | Ret true => (processedUrls_add url this, Ret (Some req))
    | Ret false => (this, Ret None)
    end.

(** [enqueueLinks({ transformRequestFunction, label })] on the request
    options [reqs]: the function is applied to them in order, the requests
    it returns are kept, and an exception ends the call. *)
Fixpoint enqueueLinks (transform : Request → EcommerceCrawler →
                                   EcommerceCrawler * outcome (option Request))
    (reqs : list Request) (this : EcommerceCrawler)
    : EcommerceCrawler * outcome (list Request) :=
  match reqs with
  | [] => (this, Ret [])
  | req :: reqs' =>
      match transform req this with
      | (this', Throw e) => (this', Throw e)
      | (this', Ret kept) =>
          let '(this'', rest) := enqueueLinks transform reqs' this' in
          (this'', obind rest (λ l, Ret (option_list kept ++ l)%list))
      end
  end.

(** The request options of the links of a page under a label. *)
Definition link_requests (lbl : string) (p : Page) : list Request :=
  map (λ u, {| url := u; label := Some lbl |}) (links p).

(** The default route handler. *)
Definition defaultHandler (p : Page) (this : EcommerceCrawler)
    : EcommerceCrawler * HandlerResult :=
  match loadedUrl p with
  | None => (this, {| enqueued := Ret []; logged := [] |})
  | Some baseUrl =>
      if String.eqb baseUrl "" then (this, {| enqueued := Ret []; logged := [] |})
      else
        let '(this', out) :=
          enqueueLinks (transformRequestFunction baseUrl) (link_requests "detail" p) this in
        (this', {| enqueued := out; logged := [] |})
  end.

(** The function evaluated in the page by the [detail] handler. *)
Definition extract_products (d : Dom.Document) : outcome (list ProductRecord) :=
  obind (Dom.document_querySelectorAll d ".rilrtl-products-list__item") (λ productCards,
    (fix map_cards (cards : list Dom.Element) : outcome (list ProductRecord) :=
       match cards with
       | [] => Ret []
       | card :: cards' =>
           obind (Dom.querySelector card "a[href]") (λ linkElement,
           obind (map_cards cards') (λ records,
           let href := from_option (Dom.href d) "" linkElement in
           Ret ({| link := if String.eqb href "" then None else Some href |} :: records)))
       end) productCards).

(** The [detail] route handler. *)
Definition detailHandler (p : Page) (this : EcommerceCrawler)
    : EcommerceCrawler * HandlerResult :=
  (this,
   {| enqueued := Ret [];
      logged :=
        Info_processing (loadedUrl p) ::
        match extract_products (document p) with
        | Ret products => [Info_extracted products]
        | Throw e => [Error_processing (loadedUrl p) e]
        end |}).

(** The router: a request labelled [detail] goes to the [detail] handler,
    every other request to the default handler. *)
Definition router (p : Page) (this : EcommerceCrawler)
    : EcommerceCrawler * HandlerResult :=
  match request_label p with
  | Some lbl => if String.eqb lbl "detail" then detailHandler p this else defaultHandler p this
  | None => defaultHandler p this
  end.

(** The pages of a run, in the order in which the engine hands them to the
    router, and the results of the handler calls. *)
Fixpoint crawl (pages : list Page) (this : EcommerceCrawler)
    : EcommerceCrawler * list HandlerResult :=
  match pages with
  | [] => (this, [])
  | p :: pages' =>
      let '(this', r) := router p this in
      let '(this'', rs) := crawl pages' this' in
      (this'', r :: rs)
  end.

(** The calls of [transformRequestFunction] of a run, each with the
    [baseUrl] of its handler, in the order in which they are made. *)
Fixpoint claims (calls : list (string * Request)) (this : EcommerceCrawler)
    : EcommerceCrawler * list (outcome (option Request)) :=
  match calls with
  | [] => (this, [])
  | (baseUrl, req) :: calls' =>
      let '(this', o) := transformRequestFunction baseUrl req this in
      let '(this'', os) := claims calls' this' in
      (this'', o :: os)
  end.

End Crawler.

(** The options given to [new PlaywrightCrawler] (the router apart). *)
Record PlaywrightCrawlerOptions : Type := {
  (** [None] is [NaN], the product [undefined * 2]. *)
  maxRequestsPerCrawl : option Z;
  maxConcurrency : Z;
}.

(** What [run] starts the engine with. *)
Record EngineStart : Type := {
  options : PlaywrightCrawlerOptions;
  seeds : list string;
}.

(** [run()], up to [crawler.run(this.config.startUrls)]: the crawler object
    as it is when the engine starts, the options that [run] gives to
    [new PlaywrightCrawler] and the seeds that it gives to [crawler.run]
    when that constructor has returned.  What the engine does with its
    options is not in the source. *)
Definition run (this : EcommerceCrawler) : EcommerceCrawler * EngineStart :=
  (this,
   {| options :=
        {| maxRequestsPerCrawl := match maxPages (config this) with
                                  | number n => Some (n * 2)
                                  | _ => None
                                  end;
           maxConcurrency := 10 |};
      seeds := startUrls (config this) |}).

(** ** What the models leave to the engine

    The two models below follow the URL Standard and the ECMAScript pattern
    grammar.  What they do not reproduce they take from the engine as it
    is, so that nothing is said about it: the processing of international
    domain names, two rules on which the editions of the URL Standard
    differ, and the patterns outside the modelled grammar. *)

Class Engine : Type := {
  (** Unicode ToASCII of UTS #46 with the flags of the URL Standard, on the
      UTF-8 bytes of a domain; [None] is failure.  The host parser calls
      it for a domain that is not ASCII or has a label that starts with
      [xn--]. *)
  unicode_to_ascii : list ascii → option (list ascii);
  (** Whether [^] belongs to the path percent-encode set: the URL Standard
      added it, and not every engine has followed. *)
  path_encodes_caret : bool;
  (** Whether a space that ends an opaque path before a [?] or [#] is
      percent-encoded: the same holds of this later rule. *)
  opaque_path_encodes_space : bool;
  (** [new RegExp(pattern)] for a pattern outside the modelled grammar:
      [None] when the constructor throws, and else the [test] method of
      the expression. *)
  RegExp_outside : string → option (string → bool);
}.

(** ** A model of [new URL(url, base).href]

    The basic URL parser, the host parser and the URL serializer of the URL
    Standard, on strings of bytes.  A byte above 127 stands for a byte of
    the UTF-8 encoding of the string.  A domain that is ASCII and has no
    [xn--] label is lowercased, as the standard says; every other domain
    is given to [unicode_to_ascii]. *)

Module Whatwg.
Import Chars.
Local Open Scope N_scope.
Local Open Scope list_scope.

Section WithEngine.
Context `{Engine}.

Definition is_c0_or_space (c : ascii) : bool := code c <=? 32.
Definition is_tab_or_newline (c : ascii) : bool := one_of_codes [9; 10; 13] c.

(** *** Percent-encode sets and percent-encoding *)

Definition c0_control_set (c : ascii) : bool := (code c <=? 31) || (126 <? code c).
Definition fragment_set (c : ascii) : bool :=
  c0_control_set c || one_of_codes [34] c || one_of " <>`" c.
Definition query_set (c : ascii) : bool :=
  c0_control_set c || one_of_codes [34] c || one_of " #<>" c.
Definition special_query_set (c : ascii) : bool := query_set c || one_of "'" c.
Definition path_set (c : ascii) : bool :=
  query_set c || one_of "?`{}" c || (path_encodes_caret && is_char "^" c).
Definition userinfo_set (c : ascii) : bool :=
  path_set c || one_of "/:;=@[\]^|" c.

Definition hex_digit (n : N) : ascii :=
  if n <? 10 then ascii_of_N (48 + n) else ascii_of_N (55 + n).
Definition percent_encode_byte (c : ascii) : list ascii :=
  ["%"%char; hex_digit (code c / 16); hex_digit (code c mod 16)].
Definition percent_encode (set : ascii → bool) (l : list ascii) : list ascii :=
  flat_map (λ c, if set c then percent_encode_byte c else [c]) l.

(** [%hh] becomes the byte [hh]; a [%] not followed by two hex digits stays. *)
Fixpoint percent_decode (l : list ascii) : list ascii :=
  match l with
  | [] => []
  | c :: rest =>
      match rest with
      | h :: lo :: rest' =>
          if is_char "%" c && is_hex_digit h && is_hex_digit lo
          then ascii_of_N (16 * hex_value h + hex_value lo) :: percent_decode rest'
          else c :: percent_decode rest
      | _ => c :: percent_decode rest
      end
  end.

(** *** Numbers *)

Definition decimal (n : N) : list ascii :=
  chars (DecimalString.NilZero.string_of_uint (N.to_uint n)).
Definition hexadecimal (n : N) : list ascii :=
  chars (HexadecimalString.NilZero.string_of_uint (N.to_hex_uint n)).

(** *** Hosts *)

Inductive url_host : Type :=
  | Domain (name : list ascii)
  | Ipv4 (address : N)
  | Ipv6 (pieces : list N)
  | OpaqueHost (name : list ascii)
  | EmptyHost.

Definition forbidden_host_code_point (c : ascii) : bool :=
  one_of_codes [0; 9; 10; 13; 32] c || one_of "#/:<>?@[\]^|" c.
Definition forbidden_domain_code_point (c : ascii) : bool :=
  forbidden_host_code_point c || (code c <=? 31) || one_of "%" c || one_of_codes [127] c.

(** The IPv4 number parser: a number in decimal, octal ([0...]) or
    hexadecimal ([0x...]) notation. *)
Definition ipv4_number (l : list ascii) : option N :=
  match l with
  | [] => None
  | c0 :: rest =>
      match rest with
      | c1 :: rest' =>
          if is_char "0" c0 && one_of "xX" c1 then digits_value 16 rest'
          else if is_char "0" c0 then digits_value 8 rest
          else digits_value 10 l
      | [] => digits_value 10 l
      end
  end.

Definition drop_last_empty (parts : list (list ascii)) : list (list ascii) :=
  match reverse parts with
  | [] :: (_ :: _) as before => reverse before
  | _ => parts
  end.

Definition ends_in_a_number (l : list ascii) : bool :=
  let parts := split_on (is_char ".") l in
  match reverse parts with
  | [[]] => false
  | rparts =>
      let rparts := match rparts with [] :: before => before | _ => rparts end in
      match rparts with
      | last :: _ =>
          (negb (leq last []) && forallb is_digit last)
          || bool_decide (is_Some (ipv4_number last))
      | [] => false
      end
  end.

Definition ipv4_parse (l : list ascii) : option N :=
  let parts := drop_last_empty (split_on (is_char ".") l) in
  if (4 <? length parts)%nat then None
  else
    numbers ← mapM ipv4_number parts;
    match reverse numbers with
    | [] => None
    | last :: before =>
        if existsb (λ n, 255 <? n) before then None
        else if 256 ^ (5 - N.of_nat (length numbers)) <=? last then None
        else Some (fold_left (λ acc n, acc * 256 + n) (reverse before) 0
                   * 256 ^ (4 - N.of_nat (length before)) + last)
    end.

(** The dotted-decimal tail of an IPv6 address: four numbers up to 255
    without leading zeros, returned as two 16-bit pieces. *)
Definition ipv6_ipv4_piece (l : list ascii) : option N :=
  match l with
  | [] => None
  | c :: rest =>
      if negb (forallb is_digit l) then None
      else if is_char "0" c && negb (leq rest []) then None
      else n ← digits_value 10 l; if 255 <? n then None else Some n
  end.

Definition ipv6_ipv4_tail (l : list ascii) : option (list N) :=
  match mapM ipv6_ipv4_piece (split_on (is_char ".") l) with
  | Some [a; b; c; d] => Some [a * 256 + b; c * 256 + d]
  | _ => None
  end.

(** The main loop of the IPv6 parser.  [pieces] are the pieces read so far,
    [compress] the piece index recorded at a [::]. *)
Fixpoint ipv6_loop (fuel : nat) (l : list ascii) (pieces : list N)
    (compress : option nat) : option (list N * option nat) :=
  match fuel, l with
  | _, [] => Some (pieces, compress)
  | O, _ => None
  | S fuel, c :: rest =>
      if (length pieces =? 8)%nat then None
      else if is_char ":" c then
        match compress with
        | Some _ => None
        | None => ipv6_loop fuel rest (pieces ++ [0]) (Some (S (length pieces)))
        end
      else
        let '(digits, after) := span_until (λ c, negb (is_hex_digit c)) (take 4 l) in
        let after := after ++ drop 4 l in
        match after with
        | [] => v ← digits_value 16 digits; Some (pieces ++ [v], compress)
        | d :: after' =>
            if is_char "." d then
              if leq digits [] || (6 <? length pieces)%nat then None
              else tail ← ipv6_ipv4_tail l; Some (pieces ++ tail, compress)
            else if is_char ":" d then
              if leq after' [] then None
              else v ← digits_value 16 digits; ipv6_loop fuel after' (pieces ++ [v]) compress
            else None
        end
  end.

Definition ipv6_parse (l : list ascii) : option (list N) :=
  r ← match l with
      | c :: rest =>
          if is_char ":" c then
            match rest with
            | c' :: rest' =>
                if is_char ":" c' then ipv6_loop (length l) rest' [0] (Some 1%nat) else None
            | [] => None
            end
          else ipv6_loop (length l) l [] None
      | [] => ipv6_loop O l [] None
      end;
  let '(pieces, compress) := r in
  match compress with
  | Some k => Some (take k pieces ++ replicate (8 - length pieces) 0 ++ drop k pieces)
  | None => if (length pieces =? 8)%nat then Some pieces else None
  end.

(** The opaque-host parser, for URLs that are not special. *)
Definition opaque_host_parse (l : list ascii) : option url_host :=
  if existsb forbidden_host_code_point l then None
  else Some (match l with [] => EmptyHost | _ => OpaqueHost (percent_encode c0_control_set l) end).

(** Domain to ASCII, not strict.  For an ASCII domain without a label that
    starts with [xn--], in any case of the letters, Unicode ToASCII is
    lowercasing.  An empty result is a failure. *)
Definition domain_to_ascii (l : list ascii) : option (list ascii) :=
  result ←
    (if existsb (λ c, 127 <? code c) l
        || existsb (starts_with (chars "xn--")) (split_on (is_char ".") (lowercase l))
     then unicode_to_ascii l
     else Some (lowercase l));
  match result with
  | [] => None
  | _ => Some result
  end.

(** The host parser. *)
Definition host_parse (l : list ascii) (is_opaque : bool) : option url_host :=
  match l with
  | c :: rest =>
      if is_char "[" c then
        match reverse rest with
        | c' :: inner => if is_char "]" c' then Ipv6 <$> ipv6_parse (reverse inner) else None
        | [] => None
        end
      else if is_opaque then opaque_host_parse l
      else
        d ← domain_to_ascii (percent_decode l);
        if existsb forbidden_domain_code_point d then None
        else if ends_in_a_number d then Ipv4 <$> ipv4_parse d
        else Some (Domain d)
  | [] => if is_opaque then opaque_host_parse l else None
  end.

(** *** Host serializer *)

Fixpoint intersperse_colons (items : list (list ascii)) : list (list ascii) :=
  match items with
  | [] => []
  | [x] => [x]
  | x :: rest => x :: chars ":" :: intersperse_colons rest
  end.

Definition ipv4_serialize (n : N) : list ascii :=
  decimal (n / 16777216) ++ chars "." ++ decimal (n / 65536 mod 256) ++ chars "."
  ++ decimal (n / 256 mod 256) ++ chars "." ++ decimal (n mod 256).

(** Length of the run of zero pieces at the head of the list. *)
Fixpoint zero_run (pieces : list N) : nat :=
  match pieces with
  | 0 :: rest => S (zero_run rest)
  | _ => O
  end.

(** Index and length of the first longest run of zero pieces. *)
Fixpoint longest_zero_run (pieces : list N) (index : nat) : nat * nat :=
  match pieces with
  | [] => (O, O)
  | _ :: rest =>
      let here := zero_run pieces in
      let '(i, n) := longest_zero_run rest (S index) in
      if (n <=? here)%nat then (index, here) else (i, n)
  end.

Definition ipv6_serialize (pieces : list N) : list ascii :=
  let '(start, len) := longest_zero_run pieces O in
  let hex l := concat (intersperse_colons (map hexadecimal l)) in
  if (len <? 2)%nat then hex pieces
  else hex (take start pieces) ++ chars "::" ++ hex (drop (start + len) pieces).

Definition host_serialize (h : url_host) : list ascii :=
  match h with
  | Domain d => d
  | Ipv4 n => ipv4_serialize n
  | Ipv6 p => chars "[" ++ ipv6_serialize p ++ chars "]"
  | OpaqueHost o => o
  | EmptyHost => []
  end.

(** *** URL records *)

Inductive url_path : Type :=
  | OpaquePath (p : list ascii)
  | PathList (segments : list (list ascii)).

Record url_record : Type := {
  scheme : list ascii;
  username : list ascii;
  password : list ascii;
  host : option url_host;
  port : option N;
  path : url_path;
  query : option (list ascii);
  fragment : option (list ascii);
}.

Definition new_url (sch : list ascii) : url_record :=
  {| scheme := sch; username := []; password := []; host := None; port := None;
     path := PathList []; query := None; fragment := None |}.
Definition set_credentials (user pass : list ascii) (u : url_record) : url_record :=
  {| scheme := scheme u; username := user; password := pass; host := host u;
     port := port u; path := path u; query := query u; fragment := fragment u |}.
Definition set_host (h : option url_host) (u : url_record) : url_record :=
  {| scheme := scheme u; username := username u; password := password u; host := h;
     port := port u; path := path u; query := query u; fragment := fragment u |}.
Definition set_port (p : option N) (u : url_record) : url_record :=
  {| scheme := scheme u; username := username u; password := password u; host := host u;
     port := p; path := path u; query := query u; fragment := fragment u |}.
Definition set_path (p : url_path) (u : url_record) : url_record :=
  {| scheme := scheme u; username := username u; password := password u; host := host u;
     port := port u; path := p; query := query u; fragment := fragment u |}.
Definition set_query (q : option (list ascii)) (u : url_record) : url_record :=
  {| scheme := scheme u; username := username u; password := password u; host := host u;
     port := port u; path := path u; query := q; fragment := fragment u |}.
Definition set_fragment (f : option (list ascii)) (u : url_record) : url_record :=
  {| scheme := scheme u; username := username u; password := password u; host := host u;
     port := port u; path := path u; query := query u; fragment := f |}.

Definition special_schemes : list (string * option N) :=
  [("ftp", Some 21); ("file", None); ("http", Some 80); ("https", Some 443);
   ("ws", Some 80); ("wss", Some 443)]%string.
Definition is_special (sch : list ascii) : bool :=
  existsb (λ e, leq sch (chars (fst e))) special_schemes.
Definition default_port (sch : list ascii) : option N :=
  match filter (λ e, sch = chars (fst e)) special_schemes with
  | e :: _ => snd e
  | [] => None
  end.
Definition is_file (sch : list ascii) : bool := leq sch (chars "file").

Definition path_segments (u : url_record) : list (list ascii) :=
  match path u with
  | PathList l => l
  | OpaquePath _ => []
  end.
Definition has_opaque_path (u : url_record) : bool :=
  match path u with
  | OpaquePath _ => true
  | PathList _ => false
  end.

(** *** The URL serializer *)

Definition path_serialize (p : url_path) : list ascii :=
  match p with
  | OpaquePath s => s
  | PathList l => flat_map (λ seg, chars "/" ++ seg) l
  end.

Definition url_serialize (u : url_record) : list ascii :=
  scheme u ++ chars ":"
  ++ match host u with
     | Some h =>
         chars "//"
         ++ (if leq (username u) [] && leq (password u) [] then []
             else username u
                  ++ (if leq (password u) [] then [] else chars ":" ++ password u)
                  ++ chars "@")
         ++ host_serialize h
         ++ match port u with
            | Some p => chars ":" ++ decimal p
            | None => []
            end
     | None =>
         match path u with
         | PathList ([] :: _ :: _) => chars "/."
         | _ => []
         end
     end
  ++ path_serialize (path u)
  ++ match query u with
     | Some q => chars "?" ++ q
     | None => []
     end
  ++ match fragment u with
     | Some f => chars "#" ++ f
     | None => []
     end.

(** *** The states of the basic URL parser

    Each state is a function of the input that is left; a state that the
    standard leaves by moving to another state calls that state. *)

Definition fragment_state (u : url_record) (input : list ascii) : url_record :=
  set_fragment (Some (percent_encode fragment_set input)) u.

(** [input] follows the [?]. *)
Definition query_state (u : url_record) (input : list ascii) : url_record :=
  let '(q, rest) := span_until (is_char "#") input in
  let set := if is_special (scheme u) then special_query_set else query_set in
  let u := set_query (Some (percent_encode set q)) u in
  match rest with
  | _ :: f => fragment_state u f
  | [] => u
  end.

(** [input] is empty or starts with [?] or [#]. *)
Definition query_or_fragment (u : url_record) (input : list ascii) : url_record :=
  match input with
  | [] => u
  | c :: rest => if is_char "?" c then query_state u rest else fragment_state u rest
  end.

Definition is_single_dot (buf : list ascii) : bool :=
  existsb (λ s, leq (lowercase buf) (chars s)) ["."; "%2e"]%string.
Definition is_double_dot (buf : list ascii) : bool :=
  existsb (λ s, leq (lowercase buf) (chars s)) [".."; ".%2e"; "%2e."; "%2e%2e"]%string.

Definition is_windows_drive_letter (l : list ascii) : bool :=
  match l with
  | [a; b] => is_alpha a && one_of ":|" b
  | _ => false
  end.
Definition is_normalized_windows_drive_letter (l : list ascii) : bool :=
  match l with
  | [a; b] => is_alpha a && is_char ":" b
  | _ => false
  end.
Definition starts_with_windows_drive_letter (l : list ascii) : bool :=
  is_windows_drive_letter (take 2 l)
  && match drop 2 l with
     | [] => true
     | c :: _ => one_of "/\?#" c
     end.

Definition shorten (sch : list ascii) (p : list (list ascii)) : list (list ascii) :=
  match p with
  | [d] => if is_file sch && is_normalized_windows_drive_letter d then p else []
  | _ => removelast p
  end.

(** The end of a path segment: [buf] is the segment and [at_slash] says
    whether a slash ended it. *)
Definition end_segment (sch : list ascii) (buf : list ascii) (at_slash : bool)
    (p : list (list ascii)) : list (list ascii) :=
  if is_double_dot buf then
    let p := shorten sch p in if at_slash then p else p ++ [[]]
  else if is_single_dot buf then
    if at_slash then p else p ++ [[]]
  else
    match buf with
    | [a; _] =>
        if is_file sch && bool_decide (p = []) && is_windows_drive_letter buf
        then p ++ [[a; ":"%char]] else p ++ [buf]
    | _ => p ++ [buf]
    end.

Fixpoint path_loop (sch : list ascii) (input buf : list ascii)
    (p : list (list ascii)) : list (list ascii) * list ascii :=
  match input with
  | [] => (end_segment sch buf false p, [])
  | c :: rest =>
      if is_char "/" c || (is_special sch && is_char "\" c)
      then path_loop sch rest [] (end_segment sch buf true p)
      else if one_of "?#" c then (end_segment sch buf false p, input)
      else path_loop sch rest (buf ++ percent_encode path_set [c]) p
  end.

(** The path state, entered with [buf] as the buffer and the segments of
    [u] as the path so far. *)
Definition path_state (u : url_record) (buf input : list ascii) : url_record :=
  let '(p, rest) := path_loop (scheme u) input buf (path_segments u) in
  query_or_fragment (set_path (PathList p) u) rest.

Definition path_start_state (u : url_record) (input : list ascii) : url_record :=
  match input with
  | c :: rest =>
      if is_special (scheme u) then
        path_state u [] (if one_of "/\" c then rest else input)
      else if is_char "?" c then query_state u rest
      else if is_char "#" c then fragment_state u rest
      else path_state u [] (if is_char "/" c then rest else input)
  | [] => if is_special (scheme u) then path_state u [] [] else u
  end.

(** The opaque path state.  [rest] is empty or starts with [?] or [#]. *)
Definition opaque_path_state (u : url_record) (input : list ascii) : url_record :=
  let '(p, rest) := span_until (one_of "?#") input in
  let p := percent_encode c0_control_set p in
  let p :=
    match rest, reverse p with
    | _ :: _, c :: before =>
        if opaque_path_encodes_space && is_char " " c
        then reverse before ++ chars "%20" else p
    | _, _ => p
    end in
  query_or_fragment (set_path (OpaquePath p) u) rest.

(** The host of [hostport] and what follows the first [:] outside
    brackets, if there is one. *)
Fixpoint split_port (l : list ascii) (inside_brackets : bool)
    : list ascii * option (list ascii) :=
  match l with
  | [] => ([], None)
  | c :: rest =>
      if is_char ":" c && negb inside_brackets then ([], Some rest)
      else
        let inside := if is_char "[" c then true
                      else if is_char "]" c then false else inside_brackets in
        let '(h, p) := split_port rest inside in (c :: h, p)
  end.

(** The host and port states: [hostport] is the buffer of the authority
    state after the credentials and [rest] the input after it. *)
Definition host_state (u : url_record) (hostport rest : list ascii) : option url_record :=
  let special := is_special (scheme u) in
  match split_port hostport false with
  | (h, Some p) =>
      if leq h [] then None
      else
        hst ← host_parse h (negb special);
        if negb (forallb is_digit p) then None
        else
          n ← digits_value 10 p;
          if 65535 <? n then None
          else
            let prt := if leq p [] then None
                       else if bool_decide (default_port (scheme u) = Some n) then None
                       else Some n in
            Some (path_start_state (set_port prt (set_host (Some hst) u)) rest)
  | (h, None) =>
      if special && leq h [] then None
      else
        hst ← host_parse h (negb special);
        Some (path_start_state (set_host (Some hst) u) rest)
  end.

(** The part of [l] before its last [@] and the part after it. *)
Definition split_credentials (l : list ascii) : option (list ascii * list ascii) :=
  let '(after, before) := span_until (is_char "@") (reverse l) in
  match before with
  | _ :: userinfo => Some (reverse userinfo, reverse after)
  | [] => None
  end.

Definition authority_state (u : url_record) (input : list ascii) : option url_record :=
  let special := is_special (scheme u) in
  let '(auth, rest) :=
    span_until (λ c, one_of "/?#" c || (special && is_char "\" c)) input in
  match split_credentials auth with
  | Some (userinfo, hostport) =>
      if leq hostport [] then None
      else
        let '(user, pass) := span_until (is_char ":") userinfo in
        host_state (set_credentials (percent_encode userinfo_set user)
                                    (percent_encode userinfo_set (drop 1 pass)) u)
                   hostport rest
  | None => host_state u auth rest
  end.

(** The special authority slashes and special authority ignore slashes
    states: every leading slash or backslash is skipped. *)
Definition special_authority_state (u : url_record) (input : list ascii) : option url_record :=
  authority_state u (drop_while (one_of "/\") input).

Definition copy_authority (base u : url_record) : url_record :=
  set_port (port base) (set_host (host base)
    (set_credentials (username base) (password base) u)).

(** The relative and relative slash states; the scheme of [base] is not
    [file] and its path is not opaque. *)
Definition relative_state (base : url_record) (input : list ascii) : option url_record :=
  let u := new_url (scheme base) in
  let special := is_special (scheme base) in
  match input with
  | [] => Some (set_query (query base) (set_path (path base) (copy_authority base u)))
  | c :: rest =>
      if is_char "/" c || (special && is_char "\" c) then
        match rest with
        | c' :: rest' =>
            if special && one_of "/\" c' then special_authority_state u rest'
            else if is_char "/" c' then authority_state u rest'
            else Some (path_state (copy_authority base u) [] rest)
        | [] => Some (path_state (copy_authority base u) [] rest)
        end
      else
        let u := set_path (path base) (copy_authority base u) in
        if is_char "?" c then Some (query_state u rest)
        else if is_char "#" c then Some (fragment_state (set_query (query base) u) rest)
        else Some (path_state
                     (set_path (PathList (shorten (scheme base) (path_segments base))) u)
                     [] input)
  end.

(** The file host state; [input] follows [file://]. *)
Definition file_host_state (u : url_record) (input : list ascii) : option url_record :=
  let '(buf, rest) := span_until (one_of "/\?#") input in
  if is_windows_drive_letter buf then Some (path_state u buf rest)
  else if leq buf [] then Some (path_start_state (set_host (Some EmptyHost) u) rest)
  else
    hst ← host_parse buf false;
    let hst := match hst with
               | Domain d => if leq d (chars "localhost") then EmptyHost else hst
               | _ => hst
               end in
    Some (path_start_state (set_host (Some hst) u) rest).

Definition is_file_url (base : option url_record) : option url_record :=
  match base with
  | Some b => if is_file (scheme b) then Some b else None
  | None => None
  end.

(** The file and file slash states. *)
Definition file_state (base : option url_record) (input : list ascii) : option url_record :=
  let u := set_host (Some EmptyHost) (new_url (chars "file")) in
  match input with
  | c :: rest =>
      if one_of "/\" c then
        match rest with
        | c' :: rest' =>
            if one_of "/\" c' then file_host_state u rest'
            else
              match is_file_url base with
              | Some b =>
                  let u := set_host (host b) u in
                  match path_segments b with
                  | d :: _ =>
                      if negb (starts_with_windows_drive_letter rest)
                         && is_normalized_windows_drive_letter d
                      then Some (path_state (set_path (PathList [d]) u) [] rest)
                      else Some (path_state u [] rest)
                  | [] => Some (path_state u [] rest)
                  end
              | None => Some (path_state u [] rest)
              end
        | [] =>
            match is_file_url base with
            | Some b =>
                let u := set_host (host b) u in
                match path_segments b with
                | d :: _ =>
                    if is_normalized_windows_drive_letter d
                    then Some (path_state (set_path (PathList [d]) u) [] rest)
                    else Some (path_state u [] rest)
                | [] => Some (path_state u [] rest)
                end
            | None => Some (path_state u [] rest)
            end
        end
      else
        match is_file_url base with
        | Some b =>
            let u := set_query (query b) (set_path (path b) (set_host (host b) u)) in
            if is_char "?" c then Some (query_state u rest)
            else if is_char "#" c then Some (fragment_state u rest)
            else
              let p := if starts_with_windows_drive_letter input then []
                       else shorten (scheme u) (path_segments b) in
              Some (path_state (set_query None (set_path (PathList p) u)) [] input)
        | None => Some (path_state u [] input)
        end
  | [] =>
      match is_file_url base with
      | Some b => Some (set_query (query b) (set_path (path b) (set_host (host b) u)))
      | None => Some (path_state u [] input)
      end
  end.

(** The no scheme state. *)
Definition no_scheme_state (base : option url_record) (input : list ascii) : option url_record :=
  match base with
  | None => None
  | Some b =>
      if has_opaque_path b then
        match input with
        | c :: rest =>
            if is_char "#" c
            then Some (fragment_state
                         (set_query (query b) (set_path (path b) (new_url (scheme b)))) rest)
            else None
        | [] => None
        end
      else if is_file (scheme b) then file_state base input
      else relative_state b input
  end.

(** The scheme start and scheme states: the lowercased scheme and the
    input after its [:], when the input starts with a scheme. *)
Definition scheme_split (input : list ascii) : option (list ascii * list ascii) :=
  match input with
  | c :: _ =>
      if is_alpha c then
        match span_until (λ c, negb (is_alnum c || one_of "+-." c)) input with
        | (sch, d :: rest) => if is_char ":" d then Some (lowercase sch, rest) else None
        | (_, []) => None
        end
      else None
  | [] => None
  end.

Definition same_scheme (base : option url_record) (sch : list ascii) : option url_record :=
  match base with
  | Some b => if leq (scheme b) sch then Some b else None
  | None => None
  end.

(** Leading and trailing C0 control or space is removed, and every ASCII
    tab or newline. *)
Definition clean (input : list ascii) : list ascii :=
  filter (λ c, is_tab_or_newline c = false)
    (reverse (drop_while is_c0_or_space (reverse (drop_while is_c0_or_space input)))).

(** The basic URL parser, without state override. *)
Definition basic_url_parse (input : list ascii) (base : option url_record) : option url_record :=
  let input := clean input in
  match scheme_split input with
  | Some (sch, rest) =>
      if is_file sch then file_state base rest
      else if is_special sch then
        match same_scheme base sch with
        | Some b =>
            if starts_with (chars "//") rest
            then special_authority_state (new_url sch) (drop 2 rest)
            else relative_state b rest
        | None => special_authority_state (new_url sch) rest
        end
      else
        match rest with
        | c :: rest' =>
            if is_char "/" c then
              match rest' with
              | c' :: rest'' =>
                  if is_char "/" c' then authority_state (new_url sch) rest''
                  else Some (path_state (new_url sch) [] rest')
              | [] => Some (path_state (new_url sch) [] rest')
              end
            else Some (opaque_path_state (new_url sch) rest)
        | [] => Some (opaque_path_state (new_url sch) rest)
        end
  | None => no_scheme_state base input
  end.

(** [new URL(url, base).href] *)
Definition href (url base : string) : option string :=
  parsed_base ← basic_url_parse (chars base) None;
  u ← basic_url_parse (chars url) (Some parsed_base);
  Some (string_of_list_ascii (url_serialize u)).

(** [new URL(url).href] *)
Definition href_absolute (url : string) : option string :=
  u ← basic_url_parse (chars url) None;
  Some (string_of_list_ascii (url_serialize u)).

End WithEngine.

End Whatwg.

(** ** A model of [new RegExp(pattern).test(s)]

    Patterns without flags, in the grammar that the engine accepts for
    them, which is the grammar of the language with its additions for web
    browsers: disjunctions, the assertions [^], [$], [\b], [\B] and
    lookahead, greedy and lazy quantifiers, groups, character classes, the
    character-class escapes, the control, hexadecimal and identity
    escapes.  A pattern is read as an expression, as a [SyntaxError], or
    as outside the model: back references and octal escapes, named groups,
    lookbehind and the other groups that open with [(?], the escapes [\k]
    and [\c] before a character that is no letter, the characters above
    127 and the quantifiers with large bounds.  Strings are ASCII.  [test]
    asks whether a match exists, so the order in which the engine tries
    alternatives and repetitions does not matter. *)

Module Regex.
Import Chars.
Local Open Scope N_scope.
Local Open Scope list_scope.

Inductive class_item : Type :=
  | Single (c : ascii)
  | Range (lo hi : ascii)
  | Digits (negated : bool)
  | WordChars (negated : bool)
  | Spaces (negated : bool).

Inductive regex : Type :=
  | Empty
  | Char (c : ascii)
  | Dot
  | Class (negated : bool) (items : list class_item)
  | Bol
  | Eol
  | WordBoundary (negated : bool)
  | Lookahead (negated : bool) (r : regex)
  | Seq (r1 r2 : regex)
  | Alt (r1 r2 : regex)
  | Repeat (min : nat) (max : option nat) (r : regex).

(** What reading a pattern gives: the expression, a [SyntaxError], or a
    pattern outside the model. *)
Inductive reading (A : Type) : Type :=
  | Read (a : A)
  | Invalid
  | Outside.
Arguments Read {A} a.
Arguments Invalid {A}.
Arguments Outside {A}.

#[local] Instance reading_bind : MBind reading := λ A B f m,
  match m with
  | Read a => f a
  | Invalid => Invalid
  | Outside => Outside
  end.

(** *** Pattern syntax *)

Definition is_word_char (c : ascii) : bool := is_alnum c || is_char "_" c.
Definition is_space_char (c : ascii) : bool := one_of_codes [9; 10; 11; 12; 13; 32] c.
Definition is_line_terminator (c : ascii) : bool := one_of_codes [10; 13] c.

(** The character with the code that the first [n] characters give in
    hexadecimal, when the code is below 128. *)
Definition hex_escape (n : nat) (l : list ascii) : reading (class_item * list ascii) :=
  match digits_value 16 (take n l) with
  | Some v => if v <? 128 then Read (Single (ascii_of_N v), drop n l) else Outside
  | None => Outside
  end.
Definition hex_digits_follow (n : nat) (l : list ascii) : bool :=
  (length (take n l) =? n)%nat && forallb is_hex_digit (take n l).

(** The escape after a backslash, in a class or outside of one: the class
    item that it stands for and the input after it.  The assertions [\b]
    and [\B] outside of a class are read by [alternative]. *)
Definition escape (in_class : bool) (l : list ascii) : reading (class_item * list ascii) :=
  match l with
  | [] => Invalid
  | c :: rest =>
      if is_char "d" c then Read (Digits false, rest)
      else if is_char "D" c then Read (Digits true, rest)
      else if is_char "w" c then Read (WordChars false, rest)
      else if is_char "W" c then Read (WordChars true, rest)
      else if is_char "s" c then Read (Spaces false, rest)
      else if is_char "S" c then Read (Spaces true, rest)
      else if is_char "t" c then Read (Single (ascii_of_N 9), rest)
      else if is_char "n" c then Read (Single (ascii_of_N 10), rest)
      else if is_char "v" c then Read (Single (ascii_of_N 11), rest)
      else if is_char "f" c then Read (Single (ascii_of_N 12), rest)
      else if is_char "r" c then Read (Single (ascii_of_N 13), rest)
      else if is_char "b" c then
        if in_class then Read (Single (ascii_of_N 8), rest) else Outside
      else if is_char "0" c then
        match rest with
        | d :: _ => if is_digit d then Outside else Read (Single (ascii_of_N 0), rest)
        | [] => Read (Single (ascii_of_N 0), rest)
        end
      else if is_digit c || is_char "k" c then Outside
      else if is_char "c" c then
        match rest with
        | x :: rest' =>
            if is_alpha x then Read (Single (ascii_of_N (code x mod 32)), rest') else Outside
        | [] => Outside
        end
      else if is_char "x" c && hex_digits_follow 2 rest then hex_escape 2 rest
      else if is_char "u" c && hex_digits_follow 4 rest then hex_escape 4 rest
      else Read (Single c, rest)
  end.

Definition item_char (i : class_item) : option ascii :=
  match i with
  | Single c => Some c
  | _ => None
  end.

(** One class atom: a character or an escape. *)
Definition class_atom (l : list ascii) : reading (class_item * list ascii) :=
  match l with
  | c :: rest => if is_char "\" c then escape true rest else Read (Single c, rest)
  | [] => Invalid
  end.

(** The items of a character class up to its closing bracket. *)
Fixpoint class_items (fuel : nat) (l : list ascii) : reading (list class_item * list ascii) :=
  match fuel, l with
  | _, [] => Invalid
  | O, _ => Outside
  | S fuel, c :: rest =>
      if is_char "]" c then Read ([], rest)
      else
        '(a, rest) ← class_atom l;
        match rest with
        | d :: rest' =>
            if is_char "-" d && negb (starts_with (chars "]") rest') then
              '(b, rest'') ← class_atom rest';
              match item_char a, item_char b with
              | Some lo, Some hi =>
                  if code hi <? code lo then Invalid
                  else '(items, r) ← class_items fuel rest''; Read (Range lo hi :: items, r)
              | _, _ =>
                  '(items, r) ← class_items fuel rest'';
                  Read (a :: Single d :: b :: items, r)
              end
            else '(items, r) ← class_items fuel rest; Read (a :: items, r)
        | [] => Invalid
        end
  end.

(** A braced quantifier [{n}], [{n,}] or [{n,m}] at the head of the
    input, with the input after it. *)
Definition braced_quantifier (l : list ascii) : option (N * option N * list ascii) :=
  match l with
  | c :: rest =>
      if is_char "{" c then
        let '(lo, rest) := span_until (λ c, negb (is_digit c)) rest in
        n ← digits_value 10 lo;
        if leq lo [] then None
        else
          match rest with
          | d :: rest' =>
              if is_char "}" d then Some (n, Some n, rest')
              else if is_char "," d then
                let '(hi, rest'') := span_until (λ c, negb (is_digit c)) rest' in
                m ← digits_value 10 hi;
                match rest'' with
                | e :: rest''' =>
                    if is_char "}" e
                    then Some (n, if leq hi [] then None else Some m, rest''')
                    else None
                | [] => None
                end
              else None
          | [] => None
          end
      else None
  | [] => None
  end.

Definition skip_lazy_mark (l : list ascii) : list ascii :=
  match l with
  | c :: rest => if is_char "?" c then rest else l
  | [] => l
  end.

(** The largest bound of a braced quantifier that the model reads. *)
Definition largest_bound : N := 1000.

(** The quantifier at the head of the input, if there is one: its bounds
    and the input after it. *)
Definition quantifier (l : list ascii) : reading (option (nat * option nat) * list ascii) :=
  match l with
  | c :: rest =>
      if is_char "*" c then Read (Some (O, None), skip_lazy_mark rest)
      else if is_char "+" c then Read (Some (1%nat, None), skip_lazy_mark rest)
      else if is_char "?" c then Read (Some (O, Some 1%nat), skip_lazy_mark rest)
      else
        match braced_quantifier l with
        | Some (n, Some m, rest') =>
            if (largest_bound <? n) || (largest_bound <? m) then Outside
            else if m <? n then Invalid
            else Read (Some (N.to_nat n, Some (N.to_nat m)), skip_lazy_mark rest')
        | Some (n, None, rest') =>
            if largest_bound <? n then Outside
            else Read (Some (N.to_nat n, None), skip_lazy_mark rest')
        | None => Read (None, l)
        end
  | [] => Read (None, l)
  end.

Definition starts_with_quantifier (l : list ascii) : bool :=
  match l with
  | c :: _ => one_of "*+?" c || bool_decide (is_Some (braced_quantifier l))
  | [] => false
  end.

(** An atom with the quantifier that follows it; a second quantifier is a
    syntax error. *)
Definition quantified (r : regex) (l : list ascii) : reading (regex * list ascii) :=
  '(q, rest) ← quantifier l;
  match q with
  | Some (n, m) =>
      if starts_with_quantifier rest then Invalid else Read (Repeat n m r, rest)
  | None => Read (r, rest)
  end.

(** The opening of a group after its parenthesis: what the group is and
    the input after the opening. *)
Definition group_opening (l : list ascii) : reading (option bool * list ascii) :=
  if starts_with (chars "?:") l then Read (None, drop 2 l)
  else if starts_with (chars "?=") l then Read (Some false, drop 2 l)
  else if starts_with (chars "?!") l then Read (Some true, drop 2 l)
  else if starts_with (chars "?") l then Outside
  else Read (None, l).

(** Alternatives and disjunctions.  [fuel] bounds the depth of the
    recursion; where it runs out the pattern is left to the engine. *)
Fixpoint alternative (fuel : nat) (l : list ascii) : reading (regex * list ascii) :=
  match fuel with
  | O => Outside
  | S fuel =>
      match l with
      | [] => Read (Empty, l)
      | c :: rest =>
          if one_of "|)" c then Read (Empty, l)
          else
            '(term, rest) ←
              (if is_char "^" c then Read (Bol, rest)
               else if is_char "$" c then Read (Eol, rest)
               else if is_char "." c then quantified Dot rest
               else if is_char "(" c then
                 '(kind, body) ← group_opening rest;
                 '(r, rest') ← disjunction fuel body;
                 match rest' with
                 | d :: rest'' =>
                     if is_char ")" d
                     then quantified (match kind with
                                      | Some neg => Lookahead neg r
                                      | None => r
                                      end) rest''
                     else Invalid
                 | [] => Invalid
                 end
               else if is_char "[" c then
                 let '(neg, body) :=
                   match rest with
                   | d :: rest' => if is_char "^" d then (true, rest') else (false, rest)
                   | [] => (false, rest)
                   end in
                 '(items, rest') ← class_items (S (length body)) body;
                 quantified (Class neg items) rest'
               else if is_char "\" c then
                 match rest with
                 | e :: rest' =>
                     if one_of "bB" e then Read (WordBoundary (is_char "B" e), rest')
                     else
                       '(i, rest'') ← escape false rest;
                       quantified (match i with
                                   | Single a => Char a
                                   | _ => Class false [i]
                                   end) rest''
                 | [] => Invalid
                 end
               else if starts_with_quantifier l then Invalid
               else quantified (Char c) rest);
            '(r2, rest) ← alternative fuel rest;
            Read (Seq term r2, rest)
      end
  end
with disjunction (fuel : nat) (l : list ascii) : reading (regex * list ascii) :=
  match fuel with
  | O => Outside
  | S fuel =>
      '(a, rest) ← alternative fuel l;
      match rest with
      | c :: rest' =>
          if is_char "|" c
          then '(d, rest'') ← disjunction fuel rest'; Read (Alt a d, rest'')
          else Read (a, rest)
      | [] => Read (a, rest)
      end
  end.

(** How many steps the repetitions of an expression unfold to. *)
Fixpoint weight (r : regex) : N :=
  match r with
  | Seq r1 r2 | Alt r1 r2 => weight r1 + weight r2
  | Lookahead _ r1 => 1 + weight r1
  | Repeat min max r1 => (1 + weight r1) * (1 + N.of_nat (default min max))
  | _ => 1
  end.

(** The largest expression that the model reads. *)
Definition largest_weight : N := 100000.

(** [new RegExp(pattern)] *)
Definition compile (pattern : string) : reading regex :=
  let l := chars pattern in
  if existsb (λ c, 127 <? code c) l then Outside
  else
    match disjunction (2 * length l + 4) l with
    | Read (r, []) => if largest_weight <? weight r then Outside else Read r
    | Read (_, _ :: _) => Invalid
    | Invalid => Invalid
    | Outside => Outside
    end.

(** *** Matching *)

Definition item_matches (c : ascii) (i : class_item) : bool :=
  match i with
  | Single a => Ascii.eqb a c
  | Range lo hi => in_range (code lo) (code hi) c
  | Digits neg => xorb neg (is_digit c)
  | WordChars neg => xorb neg (is_word_char c)
  | Spaces neg => xorb neg (is_space_char c)
  end.

(** Whether the position where the suffix [s] of [subject] starts lies
    between a word character and a character that is not one. *)
Definition at_word_boundary (subject s : list ascii) : bool :=
  let before :=
    match (length subject - length s)%nat with
    | S i => from_option is_word_char false (subject !! i)
    | O => false
    end in
  xorb before (from_option is_word_char false (head s)).

(** [matches subject r s k]: some match of [r] at the head of the suffix
    [s] of [subject] leaves a rest that [k] accepts. *)
Fixpoint matches (subject : list ascii) (r : regex) (s : list ascii)
    (k : list ascii → bool) : bool :=
  match r with
  | Empty => k s
  | Char c =>
      match s with
      | c' :: s' => Ascii.eqb c c' && k s'
      | [] => false
      end
  | Dot =>
      match s with
      | c' :: s' => negb (is_line_terminator c') && k s'
      | [] => false
      end
  | Class neg items =>
      match s with
      | c' :: s' => xorb neg (existsb (item_matches c') items) && k s'
      | [] => false
      end
  | Bol => (length s =? length subject)%nat && k s
  | Eol =>
      match s with
      | [] => k s
      | _ :: _ => false
      end
  | WordBoundary neg => xorb neg (at_word_boundary subject s) && k s
  | Lookahead neg r1 => xorb neg (matches subject r1 s (λ _, true)) && k s
  | Seq r1 r2 => matches subject r1 s (λ s', matches subject r2 s' k)
  | Alt r1 r2 => matches subject r1 s k || matches subject r2 s k
  | Repeat min max r1 =>
      (fix required (m : nat) (s : list ascii) : bool :=
         match m with
         | S m' => matches subject r1 s (λ s', required m' s')
         | O =>
             (fix optional (more : nat) (s : list ascii) : bool :=
                k s
                || match more with
                   | S more' =>
                       matches subject r1 s
                         (λ s', (length s' <? length s)%nat && optional more' s')
                   | O => false
                   end)
               (match max with
                | Some mx => (mx - min)%nat
                | None => length s
                end) s
         end) min s
  end.

(** A match starting at some position of the suffix [s]. *)
Fixpoint search (subject : list ascii) (r : regex) (s : list ascii) : bool :=
  matches subject r s (λ _, true)
  || match s with
     | _ :: s' => search subject r s'
     | [] => false
     end.

(** [regex.test(s)] *)
Definition test (r : regex) (s : string) : bool :=
  search (chars s) r (chars s).

End Regex.

(** ** The runtime, implemented *)

#[export] Instance WhatwgRuntime `{Engine} : JsRuntime := {|
  URL_href := Whatwg.href;
  RegExp := string → bool;
  RegExp_new pattern :=
    match Regex.compile pattern with
    | Regex.Read r => Some (Regex.test r)
    | Regex.Invalid => None
    | Regex.Outside => RegExp_outside pattern
    end;
  RegExp_test regex s := regex s;
|}.

(** ** The configuration of [main.ts] *)

(** The double quote, for the selectors that contain it. *)
Definition dq : string := String (ascii_of_nat 34) "".

Definition main_config : CrawlerConfig := {|
  startUrls := ["https://www.ajio.com/"];
  productListingUrlPatterns :=
    ["^https://www.myntra.com/(?:[a-z0-9-]+)$";
     "^https://www.ajio.com/.*/c/[0-9]+$"];
  productUrlPatterns := ["/buy/"; "/p/"; "/item/"; "products?id="];
  productCardSelectors := [".product-base"];
  productLinkSelectors :=
    ["a[href*=" ++ dq ++ "/product/" ++ dq ++ "]"; "a[href*=" ++ dq ++ "/p/" ++ dq ++ "]";
     ".product-card a"; ".product-link"];
  paginationSelectors :=
    [".pagination a"; "a[href*=" ++ dq ++ "page=" ++ dq ++ "]"; ".next-page"];
  maxPages := number 100;
|}.

(** ** Vocabulary of the statements *)

(** The configuration with other product (detail) URL patterns. *)
Definition set_productUrlPatterns (patterns : list string) (cfg : CrawlerConfig)
    : CrawlerConfig :=
  {| startUrls := startUrls cfg;
     productListingUrlPatterns := productListingUrlPatterns cfg;
     productCardSelectors := productCardSelectors cfg;
     productUrlPatterns := patterns;
     paginationSelectors := paginationSelectors cfg;
     productLinkSelectors := productLinkSelectors cfg;
     maxPages := maxPages cfg |}.

(** The configuration with other product-card selectors. *)
Definition set_productCardSelectors (selectors : list string) (cfg : CrawlerConfig)
    : CrawlerConfig :=
  {| startUrls := startUrls cfg;
     productListingUrlPatterns := productListingUrlPatterns cfg;
     productCardSelectors := selectors;
     productUrlPatterns := productUrlPatterns cfg;
     paginationSelectors := paginationSelectors cfg;
     productLinkSelectors := productLinkSelectors cfg;
     maxPages := maxPages cfg |}.


(** Two crawler objects with the same [processedUrls] and the same listing
    patterns. *)
Definition same_frontier (this1 this2 : EcommerceCrawler) : Prop :=
  processedUrls this1 = processedUrls this2
  ∧ productListingUrlPatterns (config this1) = productListingUrlPatterns (config this2).

(** The call returned its request: the link is handed to the engine. *)
Definition is_accepted (o : outcome (option Request)) : bool :=
  match o with
  | Ret (Some _) => true
  | _ => false
  end.

(** The requests that the calls returned. *)
Definition kept_requests (outs : list (outcome (option Request))) : list Request :=
  omap (λ o, match o with Ret kept => kept | Throw _ => None end) outs.

Section Vocabulary.
Context `{JsRuntime}.

(** How many of the calls were accepted for the normalized URL [U]. *)
Definition accepted_count (U : string) (calls : list (string * Request))
    (outs : list (outcome (option Request))) : nat :=
  length (filter (λ co, normalizeUrl (url co.1.2) co.1.1 = U ∧ is_accepted co.2 = true)
                 (zip calls outs)).

(** A pattern that compiles and does not match [url]. *)
Definition compiles_without_match (url pattern : string) : Prop :=
  ∃ regex, RegExp_new pattern = Some regex ∧ RegExp_test regex url = false.

(** A pattern that compiles and matches [url]. *)
Definition compiles_and_matches (url pattern : string) : Prop :=
  ∃ regex, RegExp_new pattern = Some regex ∧ RegExp_test regex url = true.

(** The record that the [detail] handler makes of a product card: the
    [href] of the first descendant anchor with an [href] attribute. *)
Definition card_record (d : Dom.Document) (card : Dom.Element) : ProductRecord :=
  let anchors :=
    List.filter (λ e, bool_decide (Dom.tagName e = "a"
                                   ∧ is_Some (Dom.getAttribute "href" (Dom.attributes e))))
                (flat_map Dom.subtree (Dom.children card)) in
  {| link := match head anchors with
             | Some a => if String.eqb (Dom.href d a) "" then None else Some (Dom.href d a)
             | None => None
             end |}.



End Vocabulary.

(** The elements of a document that carry the class. *)
Definition elements_of_class (class : string) (d : Dom.Document) : list Dom.Element :=
  List.filter (λ e, existsb (Chars.leq (Chars.chars class)) (Dom.classList e))
              (flat_map Dom.subtree (Dom.roots d)).

(** The input starts with two characters that are slashes or backslashes. *)
Definition starts_with_two_slashes (l : list ascii) : bool :=
  match l with
  | a :: b :: _ => Chars.one_of "/\" a && Chars.one_of "/\" b
  | _ => false
  end.

(** The input has a scheme and, when the scheme is special, two slashes
    or backslashes after it: the form of an absolute URL string with an
    authority. *)
Definition absolute_form (u : string) : bool :=
  match Whatwg.scheme_split (Whatwg.clean (Chars.chars u)) with
  | Some (sch, rest) => negb (Whatwg.is_special sch) || starts_with_two_slashes rest
  | None => false
  end.

(** ** The engine of the evaluations

    The evaluations further down run the crawler on URLs with ASCII hosts
    without [xn--] labels, without [^] and without a space at the end of
    an opaque path, and on patterns inside the modelled grammar.  On these the functions of the engine are not
    called, and the values are the same with every engine.  [plain_engine]
    is what they are run with; it stands for no engine, and no property is
    stated with it. *)

Definition plain_engine : Engine := {|
  unicode_to_ascii := λ _, None;
  path_encodes_caret := false;
  opaque_path_encodes_space := false;
  RegExp_outside := λ _, None;
|}.

(** ** Inputs of the evaluations *)

Definition ajio : string := "https://www.ajio.com/".

Definition set_startUrls (urls : list string) (cfg : CrawlerConfig) : CrawlerConfig :=
  {| startUrls := urls;
     productListingUrlPatterns := productListingUrlPatterns cfg;
     productCardSelectors := productCardSelectors cfg;
     productUrlPatterns := productUrlPatterns cfg;
     paginationSelectors := paginationSelectors cfg;
     productLinkSelectors := productLinkSelectors cfg;
     maxPages := maxPages cfg |}.

Definition set_productListingUrlPatterns (patterns : list string) (cfg : CrawlerConfig)
    : CrawlerConfig :=
  {| startUrls := startUrls cfg;
     productListingUrlPatterns := patterns;
     productCardSelectors := productCardSelectors cfg;
     productUrlPatterns := productUrlPatterns cfg;
     paginationSelectors := paginationSelectors cfg;
     productLinkSelectors := productLinkSelectors cfg;
     maxPages := maxPages cfg |}.

Definition set_maxPages (n : optional_number) (cfg : CrawlerConfig) : CrawlerConfig :=
  {| startUrls := startUrls cfg;
     productListingUrlPatterns := productListingUrlPatterns cfg;
     productCardSelectors := productCardSelectors cfg;
     productUrlPatterns := productUrlPatterns cfg;
     paginationSelectors := paginationSelectors cfg;
     productLinkSelectors := productLinkSelectors cfg;
     maxPages := n |}.

(** The request that [enqueueLinks] builds for a link under [detail]. *)
Definition detail_request (link : string) : Request :=
  {| url := link; label := Some "detail" |}.

(** A page fetched for a request without label, with the given links. *)
Definition listing_page (loaded : string) (found : list string) : Page :=
  {| request_label := None;
     loadedUrl := Some loaded;
     links := found;
     document := {| Dom.baseURI := loaded; Dom.roots := [] |} |}.

(** A product card of the Myntra listing pages, of class [product-base]. *)
Definition myntra_card : Dom.Element :=
  Dom.Elem "li" [("class", "product-base")]
    [Dom.Elem "a" [("href", "/tshirts/roadster/1700944/buy")] []].

(** A page fetched for a request labelled [detail], with one such card. *)
Definition myntra_page : Page :=
  {| request_label := Some "detail";
     loadedUrl := Some "https://www.myntra.com/men-tshirts";
     links := [];
     document :=
       {| Dom.baseURI := "https://www.myntra.com/men-tshirts";
          Dom.roots := [Dom.Elem "html" [] [Dom.Elem "body" [] [myntra_card]]] |} |}.

(** ** More of [service.ts]: [getDomain] *)

Section GetDomain.
Context `{Engine}.

(** [new URL(url).hostname] in the URL model: the serialized host, the
    empty string for a URL without host, [None] when the constructor
    throws. *)
Definition URL_hostname (url : string) : option string :=
  u ← Whatwg.basic_url_parse (Chars.chars url) None;
  Some (string_of_list_ascii (from_option Whatwg.host_serialize [] (Whatwg.host u))).

(** [try { return new URL(url).hostname; } catch (error) { return ""; }] *)
Definition getDomain (url : string) : string :=
  match URL_hostname url with
  | Some hostname => hostname
  | None => ""
  end.

End GetDomain.

(** ** Vocabulary of the further statements *)

Section MoreVocabulary.
Context `{JsRuntime}.

(** Some pattern of the list matches the URL; a pattern that does not
    compile counts as no match. *)
Definition matches_some (url : string) (patterns : list string) : bool :=
  existsb (λ pattern, from_option (λ regex, RegExp_test regex url) false (RegExp_new pattern))
          patterns.

(** [isListingUrl] returns [true]. *)
Definition classified_listing (patterns : list string) (url : string) : bool :=
  match isListingUrl url patterns with
  | Ret true => true
  | _ => false
  end.

(** The normalized URL of a call of [transformRequestFunction]. *)
Definition normalized (call : string * Request) : string :=
  normalizeUrl (url call.2) call.1.

End MoreVocabulary.

(** The page is handled by the default handler and has a loaded URL, so
    that its links reach [transformRequestFunction]. *)
Definition expands_links (p : Page) : bool :=
  negb (bool_decide (request_label p = Some "detail"))
  && negb (bool_decide (loadedUrl p = None ∨ loadedUrl p = Some "")).

(** The calls of [transformRequestFunction] for the links of a page. *)
Definition calls_of_page (p : Page) : list (string * Request) :=
  if expands_links p
  then map (pair (default "" (loadedUrl p))) (link_requests "detail" p)
  else [].

(** The requests that the handler calls of a run handed to the engine. *)
Definition all_enqueued (results : list HandlerResult) : list Request :=
  flat_map (λ r, match enqueued r with Ret l => l | Throw _ => [] end) results.

(** Two URL records with the same scheme, credentials, host and port. *)
Definition same_authority (u v : Whatwg.url_record) : Prop :=
  Whatwg.scheme u = Whatwg.scheme v
  ∧ Whatwg.username u = Whatwg.username v
  ∧ Whatwg.password u = Whatwg.password v
  ∧ Whatwg.host u = Whatwg.host v
  ∧ Whatwg.port u = Whatwg.port v.


(** The characters that a pattern demands at the start of a match: its
    literal characters up to the first other construct, with ["."] for an
    unescaped dot. *)
Fixpoint leading_chars (r : Regex.regex) : list ascii :=
  match r with
  | Regex.Char c => [c]
  | Regex.Dot => ["."%char]
  | Regex.Seq (Regex.Char c) r2 => c :: leading_chars r2
  | Regex.Seq Regex.Dot r2 => "."%char :: leading_chars r2
  | Regex.Seq Regex.Bol r2 => leading_chars r2
  | _ => []
  end.

(** [s] starts with the characters of [prefix], where ["."] in [prefix]
    stands for any character that is not a line terminator. *)
Fixpoint starts_like_chars (prefix s : list ascii) : bool :=
  match prefix, s with
  | [], _ => true
  | p :: prefix', c :: s' =>
      (if Chars.is_char "." p then negb (Regex.is_line_terminator c) else Ascii.eqb p c)
      && starts_like_chars prefix' s'
  | _ :: _, [] => false
  end.

Definition starts_like (prefix s : string) : bool :=
  starts_like_chars (Chars.chars prefix) (Chars.chars s).

(** * Properties *)

Open Scope list_scope.

(** ** The claim step *)

Section ClaimStep.
Context `{JsRuntime}.
Implicit Types (this : EcommerceCrawler) (req : Request) (U baseUrl : string).

Lemma Array_some_true {A} (f : A → outcome bool) (l : list A) :
  Array_some f l = Ret true ↔
  ∃ pre x post, l = pre ++ x :: post ∧ f x = Ret true ∧ Forall (λ y, f y = Ret false) pre.
Proof.
  induction l as [|a l IH]; simpl.
  - split; [discriminate|]. intros (pre & x & post & Hl & _).
    destruct pre; discriminate.
  - destruct (f a) as [[|]|e] eqn:Hfa; simpl.
    + split; [|done]. intros _. exists [], a, l. by repeat split.
    + rewrite IH. split.
      * intros (pre & x & post & -> & Hx & Hpre).
        exists (a :: pre), x, post. repeat split; [done|]. by constructor.
      * intros (pre & x & post & Hl & Hx & Hpre).
        destruct pre as [|a' pre']; injection Hl as -> Hl; [congruence|].
        apply Forall_cons in Hpre as [_ Hpre]. by exists pre', x, post.
    + split; [discriminate|]. intros (pre & x & post & Hl & Hx & Hpre).
      destruct pre as [|a' pre']; injection Hl as -> Hl; [congruence|].
      apply Forall_cons in Hpre as [Ha _]. congruence.
Qed.

Lemma Array_some_throw {A} (f : A → outcome bool) (l : list A) (e : exn) :
  Array_some f l = Throw e ↔
  ∃ pre x post, l = pre ++ x :: post ∧ f x = Throw e ∧ Forall (λ y, f y = Ret false) pre.
Proof.
  induction l as [|a l IH]; simpl.
  - split; [discriminate|]. intros (pre & x & post & Hl & _).
    destruct pre; discriminate.
  - destruct (f a) as [[|]|e'] eqn:Hfa; simpl.
    + split; [discriminate|]. intros (pre & x & post & Hl & Hx & Hpre).
      destruct pre as [|a' pre']; injection Hl as -> Hl; [congruence|].
      apply Forall_cons in Hpre as [Ha _]. congruence.
    + rewrite IH. split.
      * intros (pre & x & post & -> & Hx & Hpre).
        exists (a :: pre), x, post. repeat split; [done|]. by constructor.
      * intros (pre & x & post & Hl & Hx & Hpre).
        destruct pre as [|a' pre']; injection Hl as -> Hl; [congruence|].
        apply Forall_cons in Hpre as [_ Hpre]. by exists pre', x, post.
    + split.
      * intros [= ->]. exists [], a, l. by repeat split.
      * intros (pre & x & post & Hl & Hx & Hpre).
        destruct pre as [|a' pre']; injection Hl as -> Hl; [congruence|].
        apply Forall_cons in Hpre as [Ha _]. congruence.
Qed.

(** The callback of [isListingUrl] on one pattern. *)
Lemma pattern_test_false url pattern :
  obind (new_RegExp pattern) (λ regex, Ret (RegExp_test regex url)) = Ret false
  ↔ compiles_without_match url pattern.
Proof.
  unfold new_RegExp, compiles_without_match.
  destruct (RegExp_new pattern) as [regex|]; simpl.
  - split; [intros [= Ht]; eauto|]. intros (r & [= <-] & ->). done.
  - split; [discriminate|]. intros (r & ? & _). discriminate.
Qed.

Lemma pattern_test_true url pattern :
  obind (new_RegExp pattern) (λ regex, Ret (RegExp_test regex url)) = Ret true
  ↔ compiles_and_matches url pattern.
Proof.
  unfold new_RegExp, compiles_and_matches.
  destruct (RegExp_new pattern) as [regex|]; simpl.
  - split; [intros [= Ht]; eauto|]. intros (r & [= <-] & ->). done.
  - split; [discriminate|]. intros (r & ? & _). discriminate.
Qed.

Lemma pattern_test_throw url pattern e :
  obind (new_RegExp pattern) (λ regex, Ret (RegExp_test regex url)) = Throw e
  ↔ RegExp_new pattern = None ∧ e = SyntaxError.
Proof.
  unfold new_RegExp.
  destruct (RegExp_new pattern) as [regex|]; simpl.
  - split; [discriminate|]. intros [? _]. discriminate.
  - split; [by intros [= <-]|]. by intros [_ ->].
Qed.

Lemma Forall_pattern_test_false url (patterns : list string) :
  Forall (λ p, obind (new_RegExp p) (λ regex, Ret (RegExp_test regex url)) = Ret false)
         patterns
  ↔ Forall (compiles_without_match url) patterns.
Proof. apply Forall_proper; [|done]. intros p. apply pattern_test_false. Qed.

Lemma isListingUrl_true url patterns :
  isListingUrl url patterns = Ret true ↔
  ∃ pre p post, patterns = pre ++ p :: post
    ∧ compiles_and_matches url p ∧ Forall (compiles_without_match url) pre.
Proof.
  unfold isListingUrl. rewrite Array_some_true.
  split; intros (pre & p & post & -> & Hp & Hpre); exists pre, p, post.
  - by rewrite <- pattern_test_true, <- Forall_pattern_test_false.
  - by rewrite pattern_test_true, Forall_pattern_test_false.
Qed.

Lemma isListingUrl_throw url patterns e :
  isListingUrl url patterns = Throw e ↔
  e = SyntaxError ∧
  ∃ pre p post, patterns = pre ++ p :: post
    ∧ RegExp_new p = None ∧ Forall (compiles_without_match url) pre.
Proof.
  unfold isListingUrl. rewrite Array_some_throw. split.
  - intros (pre & p & post & -> & Hp & Hpre).
    apply pattern_test_throw in Hp as [Hp ->]. split; [done|].
    exists pre, p, post. by rewrite <- Forall_pattern_test_false.
  - intros (-> & pre & p & post & -> & Hp & Hpre). exists pre, p, post.
    by rewrite pattern_test_throw, Forall_pattern_test_false.
Qed.

(** What one call of [transformRequestFunction] does. *)
Lemma transform_accept baseUrl req this :
  let U := normalizeUrl (url req) baseUrl in
  U ∉ processedUrls this →
  isListingUrl U (productListingUrlPatterns (config this)) = Ret true →
  transformRequestFunction baseUrl req this = (processedUrls_add U this, Ret (Some req)).
Proof.
  intros U Hnew Hlisting. unfold transformRequestFunction. fold U.
  rewrite decide_False by done. by rewrite Hlisting.
Qed.

Lemma transform_seen baseUrl req this :
  normalizeUrl (url req) baseUrl ∈ processedUrls this →
  transformRequestFunction baseUrl req this = (this, Ret None).
Proof. intros Hin. unfold transformRequestFunction. by rewrite decide_True. Qed.

Lemma transform_inv baseUrl req this this' o U :
  U = normalizeUrl (url req) baseUrl →
  transformRequestFunction baseUrl req this = (this', o) →
  (is_accepted o = true ∧ o = Ret (Some req) ∧ this' = processedUrls_add U this
     ∧ (U ∉ processedUrls this)
     ∧ isListingUrl U (productListingUrlPatterns (config this)) = Ret true)
  ∨ (is_accepted o = false ∧ this' = this
     ∧ ((U ∈ processedUrls this ∧ o = Ret None)
        ∨ ((U ∉ processedUrls this)
           ∧ isListingUrl U (productListingUrlPatterns (config this))
             = obind o (λ _, Ret false)))).
Proof.
  intros -> Heq. unfold transformRequestFunction in Heq.
  destruct (decide (_ ∈ processedUrls this)) as [Hin|Hnin].
  - simplify_eq. right. repeat split. by left.
  - destruct (isListingUrl _ _) as [[|]|e] eqn:Hl; simplify_eq.
    + left. by repeat split.
    + right. repeat split. by right.
    + right. repeat split. by right.
Qed.

Lemma transform_grows baseUrl req this :
  processedUrls this ⊆ processedUrls (transformRequestFunction baseUrl req this).1
  ∧ config (transformRequestFunction baseUrl req this).1 = config this
  ∧ pageCount (transformRequestFunction baseUrl req this).1 = pageCount this.
Proof.
  destruct (transformRequestFunction baseUrl req this) as [this' o] eqn:Heq.
  eapply transform_inv in Heq; [|reflexivity].
  destruct Heq as [(_ & _ & -> & _)|(_ & -> & _)]; simpl; [|done].
  split; [apply union_subseteq_r|done].
Qed.

End ClaimStep.

(** ** Runs of claim attempts *)

Section Claims.
Context `{JsRuntime}.
Implicit Types (this : EcommerceCrawler) (req : Request) (U baseUrl : string).
Implicit Types (calls : list (string * Request)).

Lemma claims_cons baseUrl req calls this :
  claims ((baseUrl, req) :: calls) this =
  ((claims calls (transformRequestFunction baseUrl req this).1).1,
   (transformRequestFunction baseUrl req this).2
   :: (claims calls (transformRequestFunction baseUrl req this).1).2).
Proof.
  simpl. destruct (transformRequestFunction baseUrl req this) as [this' o].
  simpl. by destruct (claims calls this').
Qed.

Lemma claims_app calls1 calls2 this :
  claims (calls1 ++ calls2) this =
  ((claims calls2 (claims calls1 this).1).1,
   (claims calls1 this).2 ++ (claims calls2 (claims calls1 this).1).2).
Proof.
  revert this. induction calls1 as [|[b r] calls1 IH]; intros this.
  - simpl. by destruct (claims calls2 this).
  - rewrite <- app_comm_cons, !claims_cons, IH. done.
Qed.

Lemma claims_length calls this : length (claims calls this).2 = length calls.
Proof.
  revert this. induction calls as [|[b r] calls IH]; intros this; [done|].
  rewrite claims_cons. simpl. by rewrite IH.
Qed.

Lemma claims_grows calls this :
  processedUrls this ⊆ processedUrls (claims calls this).1
  ∧ config (claims calls this).1 = config this
  ∧ pageCount (claims calls this).1 = pageCount this.
Proof.
  revert this. induction calls as [|[b r] calls IH]; intros this; [done|].
  rewrite claims_cons. simpl.
  destruct (IH (transformRequestFunction b r this).1) as (Hs & Hc & Hp).
  destruct (transform_grows b r this) as (Hs' & Hc' & Hp').
  split; [by etrans|]. split; congruence.
Qed.

(** Once [U] is in [processedUrls], a call for [U] returns [false]. *)
Lemma claims_seen calls this U j baseUrl req :
  U ∈ processedUrls this →
  calls !! j = Some (baseUrl, req) →
  normalizeUrl (url req) baseUrl = U →
  (claims calls this).2 !! j = Some (Ret None).
Proof.
  revert this j. induction calls as [|[b r] calls IH]; intros this j Hin Hj HU; [done|].
  rewrite claims_cons. destruct j as [|j]; simpl in *.
  - injection Hj as -> ->. rewrite transform_seen; [done|by rewrite HU].
  - apply IH; [|done..]. by apply (transform_grows b r this).
Qed.

Lemma accepted_count_cons U baseUrl req calls o outs :
  accepted_count U ((baseUrl, req) :: calls) (o :: outs) =
  ((if bool_decide (normalizeUrl (url req) baseUrl = U ∧ is_accepted o = true)
    then 1 else 0) + accepted_count U calls outs)%nat.
Proof.
  unfold accepted_count. simpl. rewrite filter_cons. simpl.
  case_bool_decide; by case_decide.
Qed.

Lemma accepted_count_seen calls this U :
  U ∈ processedUrls this → accepted_count U calls (claims calls this).2 = 0%nat.
Proof.
  revert this. induction calls as [|[b r] calls IH]; intros this Hin; [done|].
  rewrite claims_cons. simpl. rewrite accepted_count_cons.
  rewrite IH by (by apply (transform_grows b r this)).
  case_bool_decide as Hacc; [|done]. destruct Hacc as [HU Hacc].
  rewrite transform_seen in Hacc; [done|by rewrite HU].
Qed.

(** With no call accepted for [U], no call for [U] returned its request. *)
Lemma accepted_count_zero calls this U (i : nat) baseUrl req :
  accepted_count U calls (claims calls this).2 = 0%nat →
  calls !! i = Some (baseUrl, req) →
  normalizeUrl (url req) baseUrl = U →
  (claims calls this).2 !! i ≠ Some (Ret (Some req)).
Proof.
  revert this i. induction calls as [|[b r] calls IH]; intros this i Hcount Hi HU; [done|].
  rewrite claims_cons in Hcount |- *. simpl in Hcount |- *.
  rewrite accepted_count_cons in Hcount.
  destruct i as [|i]; simpl in Hi |- *.
  - injection Hi as -> ->. intros [= Hacc].
    rewrite bool_decide_true in Hcount; [done|]. by rewrite Hacc.
  - apply Nat.eq_add_0 in Hcount as [_ Hcount]. by apply IH.
Qed.

(** The state after the first [k] calls is contained in the state after
    the first [k'] calls, for [k ≤ k']. *)
Lemma claims_take_grows calls this (k k' : nat) :
  (k ≤ k')%nat →
  processedUrls (claims (take k calls) this).1
  ⊆ processedUrls (claims (take k' calls) this).1.
Proof.
  intros Hle.
  replace (take k' calls) with (take k calls ++ take (k' - k) (drop k calls)).
  - rewrite claims_app. simpl. apply claims_grows.
  - rewrite <- (take_drop k (take k' calls)). f_equal.
    + rewrite take_take. f_equal. lia.
    + rewrite take_drop_commute. do 2 f_equal. lia.
Qed.

(** A call is accepted exactly when its normalized URL is new and
    classified as a listing URL. *)
Lemma transform_accepted_iff baseUrl req this :
  (transformRequestFunction baseUrl req this).2 = Ret (Some req) ↔
  (normalizeUrl (url req) baseUrl ∉ processedUrls this)
  ∧ isListingUrl (normalizeUrl (url req) baseUrl)
                 (productListingUrlPatterns (config this)) = Ret true.
Proof.
  split.
  - destruct (transformRequestFunction baseUrl req this) as [this' o] eqn:Heq.
    simpl. intros ->.
    eapply transform_inv in Heq; [|reflexivity].
    destruct Heq as [(_ & _ & _ & ? & ?)|(? & _)]; done.
  - intros [Hnew Hl]. by rewrite transform_accept.
Qed.

Lemma transform_accepted_req baseUrl req this kept :
  (transformRequestFunction baseUrl req this).2 = Ret (Some kept) → kept = req.
Proof.
  destruct (transformRequestFunction baseUrl req this) as [this' o] eqn:Heq.
  simpl. intros ->.
  eapply transform_inv in Heq; [|reflexivity].
  destruct Heq as [(_ & ? & _)|(? & _)]; by simplify_eq.
Qed.

(** The members of [processedUrls] after a run are the members before it
    and the normalized URLs of the accepted calls. *)
Lemma claims_members calls this U :
  U ∈ processedUrls (claims calls this).1 ↔
  U ∈ processedUrls this
  ∨ ∃ i baseUrl req, calls !! i = Some (baseUrl, req)
      ∧ normalizeUrl (url req) baseUrl = U
      ∧ (claims calls this).2 !! i = Some (Ret (Some req)).
Proof.
  revert this. induction calls as [|[b r] calls IH]; intros this.
  - simpl. split; [by left|]. intros [?|(i & ? & ? & ? & _)]; done.
  - rewrite claims_cons. simpl. rewrite IH.
    destruct (transformRequestFunction b r this) as [this' o] eqn:Heq. simpl.
    eapply transform_inv in Heq; [|reflexivity]. split.
    + intros [Hin|(i & b' & r' & Hi & HU & Hacc)].
      * destruct Heq as [(_ & -> & -> & _)|(_ & -> & _)]; [|by left].
        simpl in Hin. apply elem_of_union in Hin as [Hin|Hin]; [|by left].
        apply elem_of_singleton in Hin as ->. right. by exists 0%nat, b, r.
      * right. by exists (S i), b', r'.
    + intros [Hin|(i & b' & r' & Hi & HU & Hacc)].
      * left. destruct Heq as [(_ & _ & -> & _)|(_ & -> & _)]; [|done].
        simpl. apply elem_of_union. by right.
      * destruct i as [|i]; simpl in *.
        -- injection Hi as -> ->. injection Hacc as ->.
           destruct Heq as [(_ & _ & -> & _)|(? & _)]; [|done].
           left. simpl. apply elem_of_union. left. by apply elem_of_singleton.
        -- right. by exists i, b', r'.
Qed.

End Claims.

(** ** The frontier *)

Section Frontier.
Context `{JsRuntime}.
Implicit Types (this : EcommerceCrawler) (req : Request) (U baseUrl : string).
Implicit Types (calls : list (string * Request)).

(** When a call of [transformRequestFunction] claims a normalized URL (finds
    it absent from [processedUrls], inserts it and returns the request),
    every later call of the run whose link normalizes to the same URL
    returns [false], whatever the page it comes from; exactly one call of
    the run is accepted for that URL; the URL is in [processedUrls] at the
    end of the run; and [processedUrls] after [k] calls is contained in
    [processedUrls] after [k' ≥ k] calls. *)
Lemma claimed_url_is_accepted_once calls this (i : nat) baseUrl req :
  calls !! i = Some (baseUrl, req) →
  (claims calls this).2 !! i = Some (Ret (Some req)) →
  (∀ (j : nat) baseUrl' req',
     (i < j)%nat → calls !! j = Some (baseUrl', req') →
     normalizeUrl (url req') baseUrl' = normalizeUrl (url req) baseUrl →
     (claims calls this).2 !! j = Some (Ret None))
  ∧ accepted_count (normalizeUrl (url req) baseUrl) calls (claims calls this).2 = 1%nat
  ∧ normalizeUrl (url req) baseUrl ∈ processedUrls (claims calls this).1
  ∧ (∀ k k' : nat, (k ≤ k')%nat →
       processedUrls (claims (take k calls) this).1
       ⊆ processedUrls (claims (take k' calls) this).1).
Proof.
  intros Hi Hacc.
  cut ((∀ (j : nat) baseUrl' req',
          (i < j)%nat → calls !! j = Some (baseUrl', req') →
          normalizeUrl (url req') baseUrl' = normalizeUrl (url req) baseUrl →
          (claims calls this).2 !! j = Some (Ret None))
       ∧ accepted_count (normalizeUrl (url req) baseUrl) calls (claims calls this).2 = 1%nat
       ∧ normalizeUrl (url req) baseUrl ∈ processedUrls (claims calls this).1).
  { intros (? & ? & ?). repeat split; try done.
    intros k k'. apply claims_take_grows. }
  set (U := normalizeUrl (url req) baseUrl).
  revert this i Hi Hacc.
  induction calls as [|[b r] calls IH]; intros this i Hi Hacc; [done|].
  rewrite claims_cons in Hacc |- *. simpl in Hacc |- *.
  destruct i as [|i]; simpl in Hi, Hacc.
  - injection Hi as -> ->. injection Hacc as Hacc.
    pose proof Hacc as Hacc'.
    apply transform_accepted_iff in Hacc' as [Hnew Hl].
    rewrite (transform_accept _ _ _ Hnew Hl) in Hacc |- *. simpl. fold U.
    assert (U ∈ processedUrls (processedUrls_add U this)) as HU.
    { simpl. apply elem_of_union. left. by apply elem_of_singleton. }
    split; [|split].
    + intros [|j] b' r' Hlt Hj Hsame; [lia|]. simpl in *.
      by eapply claims_seen.
    + rewrite accepted_count_cons, accepted_count_seen by done.
      by rewrite bool_decide_true.
    + by apply claims_grows.
  - destruct (IH (transformRequestFunction b r this).1 i Hi Hacc) as (Hlater & Hcount & Hin).
    split; [|split].
    + intros [|j] b' r' Hlt Hj Hsame; [lia|]. simpl in *.
      eapply Hlater; [|done..]. lia.
    + rewrite accepted_count_cons, Hcount.
      rewrite bool_decide_false; [done|]. intros [HU Hhead].
      destruct (transformRequestFunction b r this) as [this' o] eqn:Heq.
      simpl in *. eapply transform_inv in Heq; [|reflexivity].
      destruct Heq as [(_ & _ & -> & _)|(Hno & _)]; [|congruence].
      rewrite (claims_seen calls _ U i baseUrl req) in Hacc; [done| |done..].
      simpl. rewrite HU. apply elem_of_union. left. by apply elem_of_singleton.
    + done.
Qed.

(** C9 (listing and detail classification are the same function).
    [isListingUrl] and [isProductUrl] give the same outcome on every URL
    and pattern list; both return [false] on the empty list; and they
    return [true] exactly when some pattern of the list compiles and
    matches the URL while the patterns before it compile without matching
    it. *)
Theorem C9_listing_and_product_classification_agree (url : string) (patterns : list string) :
  isListingUrl url patterns = isProductUrl url patterns
  ∧ isListingUrl url [] = Ret false
  ∧ isProductUrl url [] = Ret false
  ∧ (isProductUrl url patterns = Ret true ↔
     ∃ pre p post, patterns = pre ++ p :: post
       ∧ compiles_and_matches url p ∧ Forall (compiles_without_match url) pre).
Proof.
  repeat split; try done; apply (isListingUrl_true url patterns).
Qed.

End Frontier.

(** ** Handlers and runs of pages *)

Section Handlers.
Context `{JsRuntime}.
Implicit Types (this : EcommerceCrawler) (req : Request) (U baseUrl : string).
Implicit Types (p : Page) (pages : list Page).

Lemma same_frontier_refl this : same_frontier this this.
Proof. done. Qed.

Lemma transform_same_frontier baseUrl req this1 this2 :
  same_frontier this1 this2 →
  (transformRequestFunction baseUrl req this1).2
  = (transformRequestFunction baseUrl req this2).2
  ∧ same_frontier (transformRequestFunction baseUrl req this1).1
                  (transformRequestFunction baseUrl req this2).1.
Proof.
  intros [Hs Hp]. unfold transformRequestFunction. rewrite Hs, Hp.
  destruct (decide (_ ∈ processedUrls this2)); [done|].
  destruct (isListingUrl _ _) as [[|]|e]; try done.
  split; [done|]. split; simpl; congruence.
Qed.

Lemma enqueueLinks_same_frontier baseUrl (reqs : list Request) this1 this2 :
  same_frontier this1 this2 →
  (enqueueLinks (transformRequestFunction baseUrl) reqs this1).2
  = (enqueueLinks (transformRequestFunction baseUrl) reqs this2).2
  ∧ same_frontier (enqueueLinks (transformRequestFunction baseUrl) reqs this1).1
                  (enqueueLinks (transformRequestFunction baseUrl) reqs this2).1.
Proof.
  revert this1 this2. induction reqs as [|req reqs IH]; intros this1 this2 Hsame; [done|].
  simpl. destruct (transform_same_frontier baseUrl req _ _ Hsame) as [Ho Hsame'].
  destruct (transformRequestFunction baseUrl req this1) as [t1 o1].
  destruct (transformRequestFunction baseUrl req this2) as [t2 o2].
  simpl in Ho, Hsame'. subst o2. destruct o1 as [kept|e]; [|done].
  destruct (IH _ _ Hsame') as [Hrest Hsame''].
  destruct (enqueueLinks _ reqs t1) as [t1' r1].
  destruct (enqueueLinks _ reqs t2) as [t2' r2].
  simpl in *. by subst.
Qed.

Lemma router_same_frontier p this1 this2 :
  same_frontier this1 this2 →
  (router p this1).2 = (router p this2).2
  ∧ same_frontier (router p this1).1 (router p this2).1.
Proof.
  intros Hsame.
  assert ((defaultHandler p this1).2 = (defaultHandler p this2).2
          ∧ same_frontier (defaultHandler p this1).1 (defaultHandler p this2).1) as Hdefault.
  { unfold defaultHandler. destruct (loadedUrl p) as [baseUrl|]; [|done].
    destruct (String.eqb baseUrl ""); [done|].
    destruct (enqueueLinks_same_frontier baseUrl (link_requests "detail" p) _ _ Hsame)
      as [Ho Hsame'].
    destruct (enqueueLinks _ _ this1), (enqueueLinks _ _ this2).
    simpl in *. by subst. }
  unfold router. destruct (request_label p) as [lbl|]; [|done].
  by destruct (String.eqb lbl "detail").
Qed.

Lemma crawl_cons p pages this :
  crawl (p :: pages) this =
  ((crawl pages (router p this).1).1, (router p this).2 :: (crawl pages (router p this).1).2).
Proof.
  simpl. destruct (router p this) as [this' r]. simpl. by destruct (crawl pages this').
Qed.

Lemma crawl_same_frontier pages this1 this2 :
  same_frontier this1 this2 →
  (crawl pages this1).2 = (crawl pages this2).2
  ∧ same_frontier (crawl pages this1).1 (crawl pages this2).1.
Proof.
  revert this1 this2. induction pages as [|p pages IH]; intros this1 this2 Hsame; [done|].
  rewrite !crawl_cons. simpl.
  destruct (router_same_frontier p _ _ Hsame) as [Hr Hsame'].
  destruct (IH _ _ Hsame') as [Hrs Hsame'']. by rewrite Hr, Hrs.
Qed.

(** The handlers leave the configuration and the page counter as they are. *)
Lemma enqueueLinks_fields baseUrl (reqs : list Request) this :
  config (enqueueLinks (transformRequestFunction baseUrl) reqs this).1 = config this
  ∧ pageCount (enqueueLinks (transformRequestFunction baseUrl) reqs this).1 = pageCount this.
Proof.
  revert this. induction reqs as [|req reqs IH]; intros this; [done|].
  simpl. destruct (transform_grows baseUrl req this) as (_ & Hc & Hp).
  destruct (transformRequestFunction baseUrl req this) as [t o]. simpl in *.
  destruct o as [kept|e]; [|done].
  destruct (IH t) as [Hc' Hp']. destruct (enqueueLinks _ reqs t) as [t' r].
  simpl in *. split; congruence.
Qed.



(** A call of [enqueueLinks] that returns has made the calls of
    [transformRequestFunction] for all the links, none of which threw. *)
Lemma enqueueLinks_ret baseUrl (reqs : list Request) this (l : list Request) :
  (enqueueLinks (transformRequestFunction baseUrl) reqs this).2 = Ret l →
  (enqueueLinks (transformRequestFunction baseUrl) reqs this).1
  = (claims (map (pair baseUrl) reqs) this).1
  ∧ l = kept_requests (claims (map (pair baseUrl) reqs) this).2
  ∧ Forall (λ o, ∃ kept, o = Ret kept) (claims (map (pair baseUrl) reqs) this).2.
Proof.
  revert this l. induction reqs as [|req reqs IH]; intros this l.
  - simpl. intros [= <-]. by repeat split.
  - rewrite map_cons, claims_cons. simpl.
    destruct (transformRequestFunction baseUrl req this) as [t o]. simpl.
    destruct o as [kept|e]; [|done].
    specialize (IH t). destruct (enqueueLinks _ reqs t) as [t' [l'|e]]; [|done].
    simpl. intros [= <-]. destruct (IH l' eq_refl) as (Ht & Hl & Hall).
    simpl in Ht. subst t' l'. split; [done|]. split.
    + unfold kept_requests. simpl. by destruct kept.
    + constructor; eauto.
Qed.

(** The outcome of the [i]-th call of a run is the outcome of the call in
    the state that the calls before it leave. *)
Lemma claims_lookup (calls : list (string * Request)) this (i : nat) baseUrl req :
  calls !! i = Some (baseUrl, req) →
  (claims calls this).2 !! i
  = Some (transformRequestFunction baseUrl req (claims (take i calls) this).1).2.
Proof.
  revert this i. induction calls as [|[b r] calls IH]; intros this i Hi; [done|].
  rewrite claims_cons. destruct i as [|i]; simpl in Hi |- *.
  - by injection Hi as -> ->.
  - rewrite (IH _ _ Hi). destruct (transformRequestFunction b r this) as [t o]. simpl.
    by destruct (claims (take i calls) t).
Qed.

Lemma elem_of_kept_requests (outs : list (outcome (option Request))) req :
  req ∈ kept_requests outs ↔ ∃ i : nat, outs !! i = Some (Ret (Some req)).
Proof.
  unfold kept_requests. rewrite list_elem_of_omap. split.
  - intros (o & Ho & Hk). apply list_elem_of_lookup in Ho as [i Hi].
    exists i. destruct o as [kept|e]; by simplify_eq.
  - intros [i Hi]. exists (Ret (Some req)). split; [|done].
    by eapply list_elem_of_lookup_2.
Qed.

End Handlers.

(** ** The scheduler *)

Section Scheduler.
Context `{JsRuntime}.
Implicit Types (this : EcommerceCrawler) (req : Request) (U baseUrl : string).
Implicit Types (p : Page) (pages : list Page) (cfg : CrawlerConfig).

Lemma defaultHandler_ret p baseUrl this (reqs : list Request) :
  loadedUrl p = Some baseUrl →
  baseUrl ≠ "" →
  enqueued (defaultHandler p this).2 = Ret reqs →
  (defaultHandler p this).1
  = (claims (map (pair baseUrl) (link_requests "detail" p)) this).1
  ∧ reqs = kept_requests (claims (map (pair baseUrl) (link_requests "detail" p)) this).2
  ∧ Forall (λ o, ∃ kept, o = Ret kept)
           (claims (map (pair baseUrl) (link_requests "detail" p)) this).2.
Proof.
  intros Hloaded Hbase. unfold defaultHandler. rewrite Hloaded.
  apply String.eqb_neq in Hbase. rewrite Hbase.
  pose proof (enqueueLinks_ret baseUrl (link_requests "detail" p) this reqs) as Hret.
  destruct (enqueueLinks _ _ this) as [t o]. simpl in *. done.
Qed.

(** C3 (frontier routing rule, as the code has it).  When the default
    (listing) handler returns on a page, the requests handed to the engine
    are the requests of the links for which [transformRequestFunction]
    returned the request, in the order of the links; each of them carries
    the label [detail] and the URL of a link of the page; and the link at
    position [i] is kept exactly when the string that [normalizeUrl]
    returns for it (the resolved URL, or the empty string when the link
    cannot be resolved) is not in [processedUrls] after the links before it
    and matches a listing pattern, and is dropped otherwise.  No page
    budget enters the decision. *)
Theorem C3_frontier_routing_rule p baseUrl this (reqs : list Request) :
  loadedUrl p = Some baseUrl →
  baseUrl ≠ "" →
  enqueued (defaultHandler p this).2 = Ret reqs →
  reqs = kept_requests (claims (map (pair baseUrl) (link_requests "detail" p)) this).2
  ∧ Forall (λ r, label r = Some "detail" ∧ url r ∈ links p) reqs
  ∧ ∀ (i : nat) req,
      link_requests "detail" p !! i = Some req →
      ∃ kept,
        (claims (map (pair baseUrl) (link_requests "detail" p)) this).2 !! i
        = Some (Ret kept)
        ∧ (kept = Some req ↔
           (normalizeUrl (url req) baseUrl
              ∉ processedUrls
                  (claims (take i (map (pair baseUrl) (link_requests "detail" p))) this).1)
           ∧ isListingUrl (normalizeUrl (url req) baseUrl)
                          (productListingUrlPatterns (config this)) = Ret true)
        ∧ (kept = None ↔
           ¬ ((normalizeUrl (url req) baseUrl
                 ∉ processedUrls
                     (claims (take i (map (pair baseUrl) (link_requests "detail" p))) this).1)
              ∧ isListingUrl (normalizeUrl (url req) baseUrl)
                             (productListingUrlPatterns (config this)) = Ret true)).
Proof.
  intros Hloaded Hbase Hret.
  destruct (defaultHandler_ret p baseUrl this reqs Hloaded Hbase Hret) as (_ & -> & Hall).
  set (calls := map (pair baseUrl) (link_requests "detail" p)) in *.
  assert (∀ (i : nat) req, link_requests "detail" p !! i = Some req →
            calls !! i = Some (baseUrl, req)) as Hcalls.
  { intros i req Hi. unfold calls. by rewrite list_lookup_fmap, Hi. }
  split; [done|]. split.
  - apply Forall_forall. intros r Hr.
    apply elem_of_kept_requests in Hr as [i Hi].
    assert (is_Some (link_requests "detail" p !! i)) as [req Hreq].
    { apply lookup_lt_is_Some. apply lookup_lt_Some in Hi.
      rewrite claims_length in Hi. unfold calls in Hi. by rewrite length_map in Hi. }
    rewrite (claims_lookup calls this i baseUrl req (Hcalls _ _ Hreq)) in Hi.
    injection Hi as Hi. apply transform_accepted_req in Hi as ->.
    unfold link_requests in Hreq. rewrite list_lookup_fmap in Hreq.
    destruct (links p !! i) as [u|] eqn:Hu; [|done]. injection Hreq as <-. simpl.
    split; [done|]. by eapply list_elem_of_lookup_2.
  - intros i req Hi. pose proof (Hcalls _ _ Hi) as Hcall.
    pose proof (claims_lookup calls this i baseUrl req Hcall) as Hout.
    destruct (Forall_lookup_1 _ _ _ _ Hall Hout) as [kept Hkept].
    exists kept. rewrite Hout, Hkept. split; [done|].
    destruct (claims_grows (take i calls) this) as (_ & Hcfg & _).
    pose proof (transform_accepted_iff baseUrl req (claims (take i calls) this).1) as Hiff.
    rewrite Hcfg, Hkept in Hiff.
    assert (kept = Some req ↔ Ret kept = Ret (Some req)) as Hinj.
    { split; [by intros ->|by intros [= ->]]. }
    split.
    + by rewrite Hinj.
    + rewrite <- Hiff, <- Hinj. destruct kept as [r|]; [|done].
      apply transform_accepted_req in Hkept as ->. split; [done|]. by intros [].
Qed.

(** C4 (links that the URL constructor rejects, as the code has it).
    [normalizeUrl] returns the empty string for every link that
    [new URL(link, base)] rejects, and throws nothing.  When no listing
    pattern matches the empty string, a call of [transformRequestFunction]
    for such a link leaves the crawler object as it is and does not return
    the request; the requests that the default handler hands to the engine
    contain no such link; and the handler does not add the empty string to
    [processedUrls]. *)
Theorem C4_rejected_link_is_dropped p baseUrl this (reqs : list Request) :
  loadedUrl p = Some baseUrl →
  isListingUrl "" (productListingUrlPatterns (config this)) ≠ Ret true →
  enqueued (defaultHandler p this).2 = Ret reqs →
  (∀ link, URL_href link baseUrl = None → normalizeUrl link baseUrl = "")
  ∧ (∀ req this',
       config this' = config this → URL_href (url req) baseUrl = None →
       (transformRequestFunction baseUrl req this').1 = this'
       ∧ is_accepted (transformRequestFunction baseUrl req this').2 = false)
  ∧ (∀ req, req ∈ reqs → URL_href (url req) baseUrl ≠ None)
  ∧ ("" ∈ processedUrls (defaultHandler p this).1 → "" ∈ processedUrls this).
Proof.
  intros Hloaded Hempty Hret.
  assert (∀ link, URL_href link baseUrl = None → normalizeUrl link baseUrl = "") as Hnorm.
  { intros link Hlink. unfold normalizeUrl. by rewrite Hlink. }
  assert (∀ req this',
            config this' = config this → normalizeUrl (url req) baseUrl = "" →
            (transformRequestFunction baseUrl req this').1 = this'
            ∧ is_accepted (transformRequestFunction baseUrl req this').2 = false) as Hcall.
  { intros req this' Hcfg Hsent.
    destruct (transformRequestFunction baseUrl req this') as [t o] eqn:Heq. simpl.
    eapply transform_inv in Heq; [|reflexivity].
    destruct Heq as [(_ & _ & _ & _ & Hl)|(? & ? & _)]; [|done].
    rewrite Hsent, Hcfg in Hl. done. }
  split; [done|]. split; [by eauto|].
  destruct (decide (baseUrl = "")) as [->|Hbase].
  { unfold defaultHandler in *. rewrite Hloaded in *. simpl in *.
    injection Hret as <-. split; [|done]. intros req Hin. by apply elem_of_nil in Hin. }
  destruct (defaultHandler_ret p baseUrl this reqs Hloaded Hbase Hret) as (-> & -> & Hall).
  set (calls := map (pair baseUrl) (link_requests "detail" p)) in *.
  assert (∀ (i : nat) b r, calls !! i = Some (b, r) →
            (claims calls this).2 !! i = Some (Ret (Some r)) →
            b = baseUrl ∧ normalizeUrl (url r) baseUrl ≠ "") as Hkept.
  { intros i b r Hi Hacc.
    assert (b = baseUrl) as ->.
    { unfold calls in Hi. rewrite list_lookup_fmap in Hi.
      destruct (link_requests "detail" p !! i); by simplify_eq/=. }
    split; [done|]. intros Hsent.
    rewrite (claims_lookup calls this i baseUrl r Hi) in Hacc. injection Hacc as Hacc.
    destruct (claims_grows (take i calls) this) as (_ & Hcfg & _).
    destruct (Hcall r _ Hcfg Hsent) as [_ Hno]. by rewrite Hacc in Hno. }
  split.
  - intros req Hin Hrej. apply elem_of_kept_requests in Hin as [i Hi].
    assert (is_Some (calls !! i)) as [[b r] Hcall_i].
    { apply lookup_lt_is_Some. apply lookup_lt_Some in Hi. by rewrite claims_length in Hi. }
    pose proof Hi as Hi'. rewrite (claims_lookup calls this i b r Hcall_i) in Hi'.
    injection Hi' as Hi'. apply transform_accepted_req in Hi' as ->.
    destruct (Hkept i b r Hcall_i Hi) as [-> Hne]. by apply Hne, Hnorm.
  - rewrite claims_members. intros [?|(i & b & r & Hi & HU & Hacc)]; [done|].
    destruct (Hkept i b r Hi Hacc) as [-> Hne]. done.
Qed.

(** C5 (invalid patterns, as the code has it).  Patterns are compiled by
    the classification calls, not by the constructor or by [run].  A call
    of [transformRequestFunction] throws exactly when the normalized URL
    is not in [processedUrls] and some listing pattern does not compile
    while the patterns before it compile without matching the URL; the
    exception is then a [SyntaxError].  The product (detail) patterns are
    never compiled: the results of the handler calls of a run are the same
    whatever these patterns are. *)
Theorem C5_invalid_pattern_raises_during_classification
    baseUrl req this (e : exn) cfg (patterns : list string) pages :
  ((transformRequestFunction baseUrl req this).2 = Throw e ↔
   e = SyntaxError
   ∧ (normalizeUrl (url req) baseUrl ∉ processedUrls this)
   ∧ ∃ pre pattern post,
       productListingUrlPatterns (config this) = pre ++ pattern :: post
       ∧ RegExp_new pattern = None
       ∧ Forall (compiles_without_match (normalizeUrl (url req) baseUrl)) pre)
  ∧ (crawl pages (run (constructor (set_productUrlPatterns patterns cfg))).1).2
    = (crawl pages (run (constructor cfg)).1).2.
Proof.
  split; [|by apply crawl_same_frontier].
  destruct (transformRequestFunction baseUrl req this) as [t o] eqn:Heq. simpl.
  eapply transform_inv in Heq; [|reflexivity]. split.
  - intros ->. destruct Heq as [(? & _)|(_ & _ & [[_ ?]|[Hnew Hl]])]; [done..|].
    simpl in Hl. apply isListingUrl_throw in Hl as [-> Hl]. done.
  - intros (-> & Hnew & Hl).
    assert (isListingUrl (normalizeUrl (url req) baseUrl)
              (productListingUrlPatterns (config this)) = Throw SyntaxError) as Hthrow.
    { by apply isListingUrl_throw. }
    destruct Heq as [(_ & _ & _ & _ & Hl')|(_ & _ & [[? _]|[_ Hl']])]; [congruence|done|].
    rewrite Hthrow in Hl'. destruct o; by simplify_eq/=.
Qed.

(** C8 (detail-pattern noninterference).  Two crawlers built from
    configurations that differ only in [productUrlPatterns], run on the
    same pages, start the engine with the same seeds and options and hand
    the same requests, with the same labels, to the engine at every handler
    call. *)
Theorem C8_detail_patterns_do_not_interfere cfg (patterns : list string) pages :
  (run (constructor (set_productUrlPatterns patterns cfg))).2 = (run (constructor cfg)).2
  ∧ (crawl pages (run (constructor (set_productUrlPatterns patterns cfg))).1).2
    = (crawl pages (run (constructor cfg)).1).2
  ∧ processedUrls (crawl pages (run (constructor (set_productUrlPatterns patterns cfg))).1).1
    = processedUrls (crawl pages (run (constructor cfg)).1).1.
Proof.
  split; [done|].
  destruct (crawl_same_frontier pages
              (run (constructor (set_productUrlPatterns patterns cfg))).1
              (run (constructor cfg)).1) as [Hr [Hs _]]; done.
Qed.


(** [run] hands [startUrls] to the engine as it is and leaves
    [processedUrls] empty; the members of [processedUrls] after a sequence
    of calls are the normalized URLs for which [transformRequestFunction]
    returned the request; so the call for a seed URL, after calls none of
    which was accepted for its normalized URL, claims it and returns the
    request when the normalized URL matches a listing pattern. *)
Lemma seed_is_claimed_by_its_first_call cfg (seed : string) baseUrl
    (lbl : option string) (calls : list (string * Request)) :
  seed ∈ startUrls cfg →
  isListingUrl (normalizeUrl seed baseUrl) (productListingUrlPatterns cfg) = Ret true →
  accepted_count (normalizeUrl seed baseUrl) calls
                 (claims calls (run (constructor cfg)).1).2 = 0%nat →
  seeds (run (constructor cfg)).2 = startUrls cfg
  ∧ processedUrls (run (constructor cfg)).1 = ∅
  ∧ (∀ U, U ∈ processedUrls (claims calls (run (constructor cfg)).1).1 ↔
          ∃ (i : nat) b r, calls !! i = Some (b, r) ∧ normalizeUrl (url r) b = U
            ∧ (claims calls (run (constructor cfg)).1).2 !! i = Some (Ret (Some r)))
  ∧ transformRequestFunction baseUrl {| url := seed; label := lbl |}
      (claims calls (run (constructor cfg)).1).1
    = (processedUrls_add (normalizeUrl seed baseUrl) (claims calls (run (constructor cfg)).1).1,
       Ret (Some {| url := seed; label := lbl |})).
Proof.
  intros _ Hl Hcount. simpl.
  assert (∀ U, U ∈ processedUrls (claims calls (constructor cfg)).1 ↔
            ∃ (i : nat) b r, calls !! i = Some (b, r) ∧ normalizeUrl (url r) b = U
              ∧ (claims calls (constructor cfg)).2 !! i = Some (Ret (Some r))) as Hmem.
  { intros U. rewrite claims_members. simpl. split; [|by right].
    intros [Hin|?]; [|done]. by apply elem_of_empty in Hin. }
  repeat split; try done; try apply Hmem.
  apply transform_accept; simpl.
  - rewrite Hmem. intros (i & b & r & Hi & HU & Hacc).
    by eapply (accepted_count_zero calls (constructor cfg)).
  - destruct (claims_grows calls (constructor cfg)) as (_ & -> & _). done.
Qed.

End Scheduler.

(** ** Runs of the handlers: what is claimed and what is enqueued *)

Section Runs.
Context `{JsRuntime}.
Implicit Types (this : EcommerceCrawler) (req : Request) (U baseUrl : string).
Implicit Types (p : Page) (pages : list Page).










End Runs.

(** ** The extraction handler *)

Section Extraction.
Context `{JsRuntime}.

Lemma chars_inj (s t : string) : Chars.chars s = Chars.chars t ↔ s = t.
Proof.
  split; [|by intros ->]. unfold Chars.chars. intros Heq.
  by rewrite <- (string_of_list_ascii_of_string s), Heq, string_of_list_ascii_of_string.
Qed.

Lemma querySelectorAll_cards (d : Dom.Document) :
  Dom.document_querySelectorAll d ".rilrtl-products-list__item"
  = Ret (elements_of_class "rilrtl-products-list__item" d).
Proof.
  unfold Dom.document_querySelectorAll, Dom.select, elements_of_class.
  replace (Dom.parse_selector ".rilrtl-products-list__item")
    with (Some [Dom.ClassSelector (Chars.chars "rilrtl-products-list__item")])
    by (vm_compute; reflexivity).
  f_equal. apply List.filter_ext. intros e. simpl. apply andb_true_r.
Qed.

Lemma querySelector_anchor (card : Dom.Element) :
  Dom.querySelector card "a[href]"
  = Ret (head (List.filter
                 (λ e, bool_decide
                         (Dom.tagName e = "a"
                          ∧ is_Some (Dom.getAttribute "href" (Dom.attributes e))))
                 (flat_map Dom.subtree (Dom.children card)))).
Proof.
  unfold Dom.querySelector, Dom.select.
  replace (Dom.parse_selector "a[href]")
    with (Some [Dom.TypeSelector (Chars.chars "a"); Dom.AttributeSelector (Chars.chars "href")])
    by (vm_compute; reflexivity).
  simpl. do 2 f_equal. apply List.filter_ext. intros e. simpl.
  rewrite andb_true_r, bool_decide_and. f_equal.
  unfold Chars.leq. apply bool_decide_ext, (chars_inj (Dom.tagName e) "a").
Qed.

Lemma extract_products_cards (d : Dom.Document) :
  extract_products d
  = Ret (map (card_record d) (elements_of_class "rilrtl-products-list__item" d)).
Proof.
  unfold extract_products. rewrite querySelectorAll_cards. cbn [obind].
  induction (elements_of_class _ d) as [|card cards IH]; [done|].
  cbn -[Dom.querySelector card_record] in IH |- *.
  rewrite querySelector_anchor, IH. cbn [obind]. do 2 f_equal.
  unfold card_record. f_equal.
  by destruct (head _) as [a|].
Qed.

(** C6 (extraction, as the code has it).  On every page, the [detail]
    handler leaves the crawler object as it is, hands no request to the
    engine and logs, after the URL of the page, one record for each element
    of the class [rilrtl-products-list__item], in document order; the link
    of a record is the [href] of the first descendant anchor of the card
    that has an [href] attribute, or null when the card has none (or when
    that [href] is empty).  The selector is this fixed one: the result is
    the same whatever [productCardSelectors] and the other options are.
    With no such element the handler logs the empty list of records and no
    error. *)
Theorem C6_extraction_of_product_cards (p : Page) (this : EcommerceCrawler) :
  detailHandler p this
  = (this,
     {| enqueued := Ret [];
        logged :=
          [Info_processing (loadedUrl p);
           Info_extracted
             (map (card_record (document p))
                  (elements_of_class "rilrtl-products-list__item" (document p)))] |}).
Proof. unfold detailHandler. by rewrite extract_products_cards. Qed.

End Extraction.

(** ** The URL model: absolute URLs do not depend on the base *)

Section UrlModel.
Context `{Engine}.

Lemma special_authority_state_slashes (u : Whatwg.url_record) (rest : list ascii) :
  Chars.starts_with (Chars.chars "//") rest = true →
  Whatwg.special_authority_state u (drop 2 rest) = Whatwg.special_authority_state u rest.
Proof.
  unfold Chars.starts_with, Chars.leq. intros Hslashes.
  apply bool_decide_eq_true in Hslashes.
  destruct rest as [|a [|b rest]]; try discriminate.
  simpl in Hslashes. injection Hslashes as -> ->. reflexivity.
Qed.

Lemma special_authority_state_two_slashes (u : Whatwg.url_record) a b (rest : list ascii) :
  Chars.one_of "/\" a = true → Chars.one_of "/\" b = true →
  Whatwg.special_authority_state u (a :: b :: rest) = Whatwg.special_authority_state u rest.
Proof.
  intros Ha Hb. unfold Whatwg.special_authority_state. simpl. by rewrite Ha, Hb.
Qed.

Lemma basic_url_parse_absolute (u : string) (base : Whatwg.url_record) :
  absolute_form u = true →
  Whatwg.basic_url_parse (Chars.chars u) (Some base)
  = Whatwg.basic_url_parse (Chars.chars u) None.
Proof.
  unfold absolute_form, Whatwg.basic_url_parse.
  destruct (Whatwg.scheme_split _) as [[sch rest]|]; [|discriminate].
  destruct (Whatwg.is_special sch) eqn:Hspecial; simpl.
  - destruct rest as [|a [|b rest]]; try discriminate.
    unfold starts_with_two_slashes. intros [Ha Hb]%andb_true_iff.
    destruct (Whatwg.is_file sch).
    + unfold Whatwg.file_state. by rewrite Ha, Hb.
    + unfold Whatwg.same_scheme.
      destruct (Chars.leq (Whatwg.scheme base) sch) eqn:Hsame; [|done].
      apply bool_decide_eq_true in Hsame.
      destruct (Chars.starts_with _ (a :: b :: rest)) eqn:Hslashes.
      * by apply (special_authority_state_slashes _ (a :: b :: rest)).
      * rewrite (special_authority_state_two_slashes _ a b rest Ha Hb).
        unfold Whatwg.relative_state. rewrite Hsame, Hspecial, Hb. simpl.
        assert (Chars.is_char "/" a || Chars.is_char "\" a = true) as ->; [|done].
        revert Ha. unfold Chars.is_char, Chars.one_of. simpl.
        by rewrite !orb_false_r.
  - intros _. assert (Whatwg.is_file sch = false) as ->; [|done].
    revert Hspecial. unfold Whatwg.is_special, Whatwg.is_file. simpl.
    intros (_ & (Hfile & _)%orb_false_iff)%orb_false_iff. exact Hfile.
Qed.

(** C7 (normalization of absolute URLs, as the code has it).  For a string
    in the form of an absolute URL with an authority (a scheme, followed by
    two slashes or backslashes when the scheme is special) and every base
    that is a URL, [normalizeUrl] returns the canonical serialization of
    the string, and the empty string when the string is not a valid URL;
    the result is the same for every such base.  This holds with every
    engine. *)
Theorem C7_absolute_url_normalizes_to_canonical_form (u b : string) :
  is_Some (Whatwg.href_absolute b) →
  absolute_form u = true →
  normalizeUrl u b = default "" (Whatwg.href_absolute u)
  ∧ ∀ b', is_Some (Whatwg.href_absolute b') → normalizeUrl u b' = normalizeUrl u b.
Proof.
  intros Hb Hu.
  assert (∀ b', is_Some (Whatwg.href_absolute b') →
            normalizeUrl u b' = default "" (Whatwg.href_absolute u)) as Hany.
  { intros b' [h Hh]. unfold normalizeUrl, URL_href. simpl.
    unfold Whatwg.href, Whatwg.href_absolute in *.
    destruct (Whatwg.basic_url_parse (Chars.chars b') None) as [base|]; [|done]. simpl.
    rewrite (basic_url_parse_absolute u base Hu).
    by destruct (Whatwg.basic_url_parse (Chars.chars u) None). }
  split; [by apply Hany|]. intros b' Hb'. by rewrite !Hany.
Qed.

End UrlModel.

(** * Further properties *)

(** ** One call, repeated *)

Section FurtherClaims.
Context `{JsRuntime}.
Implicit Types (this : EcommerceCrawler) (req : Request) (U baseUrl : string).
Implicit Types (calls : list (string * Request)).

(** A call made after the crawler object has grown, for a request whose
    first call returned: it returns [false] and changes nothing. *)
Lemma transform_after baseUrl req this this' kept later :
  transformRequestFunction baseUrl req this = (this', Ret kept) →
  processedUrls this' ⊆ processedUrls later →
  config later = config this →
  transformRequestFunction baseUrl req later = (later, Ret None).
Proof.
  intros Heq Hsub Hcfg. eapply transform_inv in Heq; [|reflexivity].
  destruct Heq as [(_ & _ & -> & _)|(_ & -> & [[Hin _]|[Hnin Hl]])].
  - apply transform_seen. apply Hsub. simpl.
    apply elem_of_union. left. by apply elem_of_singleton.
  - apply transform_seen. by apply Hsub.
  - simpl in Hl. unfold transformRequestFunction.
    destruct (decide (_ ∈ processedUrls later)); [done|]. by rewrite Hcfg, Hl.
Qed.

(** X1.  Repeating a call of [transformRequestFunction] right after it
    changes nothing more, and the repeated call never returns the request:
    it returns [false] when the first call returned, and throws the same
    exception when the first call threw. *)
Theorem X1_repeated_call_changes_nothing baseUrl req this :
  transformRequestFunction baseUrl req (transformRequestFunction baseUrl req this).1
  = ((transformRequestFunction baseUrl req this).1,
     obind (transformRequestFunction baseUrl req this).2 (λ _, Ret None)).
Proof.
  destruct (transformRequestFunction baseUrl req this) as [this' [kept|e]] eqn:Heq; simpl.
  - eapply transform_after; [done..|].
    by destruct (transform_grows baseUrl req this) as (_ & Hc & _); rewrite Heq in Hc.
  - pose proof Heq as Heq'. eapply transform_inv in Heq'; [|reflexivity].
    destruct Heq' as [(? & _)|(_ & -> & _)]; done.
Qed.

(** ** What a run leaves in [processedUrls] *)

Lemma claims_processedUrls calls this :
  processedUrls (claims calls this).1
  = processedUrls this
    ∪ list_to_set (filter (λ U, classified_listing
                                  (productListingUrlPatterns (config this)) U = true)
                          (map normalized calls)).
Proof.
  revert this. induction calls as [|[b r] calls IH]; intros this.
  - simpl. by rewrite (right_id_L ∅ (∪)).
  - rewrite claims_cons. simpl. rewrite IH. clear IH.
    destruct (transform_grows b r this) as (_ & -> & _).
    destruct (transformRequestFunction b r this) as [this' o] eqn:Heq. simpl.
    eapply transform_inv in Heq; [|reflexivity].
    rewrite filter_cons. unfold normalized at 2 3. simpl.
    set (L := filter _ (map normalized calls)).
    assert (classified_listing (productListingUrlPatterns (config this))
              (normalizeUrl (url r) b) = true
            ↔ isListingUrl (normalizeUrl (url r) b)
                (productListingUrlPatterns (config this)) = Ret true) as Hclass.
    { unfold classified_listing. by destruct (isListingUrl _ _) as [[|]|]. }
    destruct (decide _) as [Hyes|Hno]; rewrite Hclass in *.
    + rewrite list_to_set_cons, (assoc_L (∪)). f_equal.
      destruct Heq as [(_ & _ & -> & _)|(_ & -> & [[Hin _]|[_ Hl]])]; simpl.
      * apply (comm_L (∪)).
      * unfold normalized. simpl. symmetry. rewrite (comm_L (∪)).
        apply subseteq_union_1_L. by apply singleton_subseteq_l.
      * rewrite Hyes in Hl. by destruct o.
    + destruct Heq as [(_ & _ & _ & _ & Hl)|(_ & -> & _)]; done.
Qed.

(** X2.  After the calls of a run, [processedUrls] holds what it held
    before and the normalized URLs of the calls that [isListingUrl]
    classifies as listing URLs, and nothing else; whether a call threw or
    in which order the calls came does not enter. *)
Theorem X2_processed_urls_after_a_run calls this :
  processedUrls (claims calls this).1
  = processedUrls this
    ∪ list_to_set (filter (λ U, classified_listing
                                  (productListingUrlPatterns (config this)) U = true)
                          (map normalized calls)).
Proof. apply claims_processedUrls. Qed.

(** X3.  The calls of a run in another order leave the same
    [processedUrls]. *)
Theorem X3_processed_urls_do_not_depend_on_the_order calls calls' this :
  calls ≡ₚ calls' →
  processedUrls (claims calls this).1 = processedUrls (claims calls' this).1.
Proof.
  intros Hperm. rewrite !claims_processedUrls. f_equal.
  apply set_eq. intros U. rewrite !elem_of_list_to_set, !list_elem_of_filter.
  by rewrite Hperm.
Qed.

Lemma claims_size calls this :
  size (processedUrls (claims calls this).1)
  = (size (processedUrls this) + length (kept_requests (claims calls this).2))%nat.
Proof.
  revert this. induction calls as [|[b r] calls IH]; intros this.
  - simpl. unfold kept_requests. simpl. lia.
  - rewrite claims_cons. simpl. rewrite IH. clear IH.
    destruct (transformRequestFunction b r this) as [this' o] eqn:Heq. simpl.
    eapply transform_inv in Heq; [|reflexivity].
    unfold kept_requests. simpl.
    destruct Heq as [(_ & -> & -> & Hnew & _)|(Hno & -> & _)]; simpl.
    + rewrite size_union by (by apply disjoint_singleton_l).
      rewrite size_singleton. lia.
    + destruct o as [[kept|]|e]; simpl in *; try done; lia.
Qed.

(** X4.  Each request that a call returns adds exactly one URL to
    [processedUrls]: the set grows by the number of requests returned. *)
Theorem X4_one_new_url_for_each_request calls this :
  size (processedUrls (claims calls this).1)
  = (size (processedUrls this) + length (kept_requests (claims calls this).2))%nat.
Proof. apply claims_size. Qed.

End FurtherClaims.

(** ** Handler calls *)

Section FurtherHandlers.
Context `{JsRuntime}.
Implicit Types (this : EcommerceCrawler) (req : Request) (U baseUrl : string).
Implicit Types (p : Page) (pages : list Page).

Lemma enqueueLinks_grows baseUrl (reqs : list Request) this :
  processedUrls this
  ⊆ processedUrls (enqueueLinks (transformRequestFunction baseUrl) reqs this).1.
Proof.
  revert this. induction reqs as [|req reqs IH]; intros this; [done|].
  simpl. destruct (transform_grows baseUrl req this) as (Hs & _).
  destruct (transformRequestFunction baseUrl req this) as [t [kept|e]]; [|done].
  specialize (IH t). destruct (enqueueLinks _ reqs t) as [t' o]. simpl in *.
  by etrans.
Qed.

Lemma enqueueLinks_again baseUrl (reqs : list Request) this :
  enqueueLinks (transformRequestFunction baseUrl) reqs
    (enqueueLinks (transformRequestFunction baseUrl) reqs this).1
  = ((enqueueLinks (transformRequestFunction baseUrl) reqs this).1,
     obind (enqueueLinks (transformRequestFunction baseUrl) reqs this).2 (λ _, Ret [])).
Proof.
  revert this. induction reqs as [|req reqs IH]; intros this; [done|].
  simpl.
  destruct (transformRequestFunction baseUrl req this) as [t [kept|e]] eqn:Heq.
  - pose proof (enqueueLinks_grows baseUrl reqs t) as Hgrow.
    pose proof (enqueueLinks_fields baseUrl reqs t) as [Hcfg _].
    specialize (IH t).
    destruct (enqueueLinks _ reqs t) as [t' o] eqn:Hrest. simpl in *.
    rewrite (transform_after baseUrl req this t kept t' Heq Hgrow).
    + rewrite IH. simpl. by destruct o.
    + destruct (transform_grows baseUrl req this) as (_ & Hc & _).
      rewrite Heq in Hc. simpl in Hc. congruence.
  - simpl. pose proof Heq as Heq'. eapply transform_inv in Heq'; [|reflexivity].
    destruct Heq' as [(? & _)|(_ & -> & _)]; [done|]. by rewrite Heq.
Qed.

(** X5.  Handling the same page again right after the default handler
    handled it changes nothing more and hands no request to the engine:
    the second call returns no request when the first one returned, and
    throws the same exception when the first one threw.  So the links that
    a failed call had claimed before it threw are not handed over by a
    retry. *)
Theorem X5_second_handling_of_a_page_gives_nothing p this :
  defaultHandler p (defaultHandler p this).1
  = ((defaultHandler p this).1,
     {| enqueued := obind (enqueued (defaultHandler p this).2) (λ _, Ret []);
        logged := [] |}).
Proof.
  unfold defaultHandler. destruct (loadedUrl p) as [baseUrl|]; [|done].
  destruct (String.eqb baseUrl ""); [done|].
  pose proof (enqueueLinks_again baseUrl (link_requests "detail" p) this) as Hagain.
  destruct (enqueueLinks _ _ this) as [t o]. simpl in *. by rewrite Hagain.
Qed.

Lemma enqueueLinks_sublist baseUrl (reqs : list Request) this (l : list Request) :
  (enqueueLinks (transformRequestFunction baseUrl) reqs this).2 = Ret l →
  sublist l reqs.
Proof.
  revert this l. induction reqs as [|req reqs IH]; intros this l.
  - simpl. by intros [= <-].
  - simpl. pose proof (transform_accepted_req baseUrl req this) as Hreq.
    destruct (transformRequestFunction baseUrl req this) as [t [kept|e]]; [|done].
    specialize (IH t). destruct (enqueueLinks _ reqs t) as [t' [l'|e]]; [|done].
    simpl in *. intros [= <-]. specialize (IH l' eq_refl).
    destruct kept as [r|]; simpl.
    + rewrite (Hreq r eq_refl). by apply sublist_skip.
    + by apply sublist_cons.
Qed.

Lemma defaultHandler_sublist p this (l : list Request) :
  enqueued (defaultHandler p this).2 = Ret l →
  sublist l (link_requests "detail" p).
Proof.
  unfold defaultHandler. destruct (loadedUrl p) as [baseUrl|].
  - destruct (String.eqb baseUrl "").
    + simpl. intros [= <-]. apply sublist_nil_l.
    + pose proof (enqueueLinks_sublist baseUrl (link_requests "detail" p) this l).
      by destruct (enqueueLinks _ _ this).
  - simpl. intros [= <-]. apply sublist_nil_l.
Qed.

(** X6.  The requests that the default handler hands to the engine are
    requests of the links of the page, unchanged and in the order of the
    links: a sublist of them. *)
Theorem X6_enqueued_requests_are_a_sublist_of_the_links p this (l : list Request) :
  enqueued (defaultHandler p this).2 = Ret l →
  sublist l (map (λ u, {| url := u; label := Some "detail" |}) (links p)).
Proof. apply defaultHandler_sublist. Qed.

(** X7.  The crawl does not go deeper than one link from the pages of the
    seeds: a page fetched for a request that a handler handed to the
    engine is routed to the [detail] handler, which leaves the crawler
    object as it is and hands no request to the engine. *)
Theorem X7_links_of_enqueued_pages_are_not_followed p0 this (l : list Request) req p this' :
  enqueued (router p0 this).2 = Ret l →
  req ∈ l →
  request_label p = label req →
  router p this' = detailHandler p this'
  ∧ (router p this').1 = this'
  ∧ enqueued (router p this').2 = Ret [].
Proof.
  intros Hret Hin Hlabel.
  assert (label req = Some "detail") as Hdetail.
  { assert (sublist l (link_requests "detail" p0)) as Hsub.
    { unfold router in Hret.
      destruct (request_label p0) as [lbl|]; [destruct (String.eqb lbl "detail")|].
      - simpl in Hret. injection Hret as <-. by apply elem_of_nil in Hin.
      - by apply (defaultHandler_sublist p0 this).
      - by apply (defaultHandler_sublist p0 this). }
    apply (elem_of_sublist _ _ _ Hin) in Hsub. rename Hsub into Hin'.
    unfold link_requests in Hin'. apply list_elem_of_fmap in Hin' as (u & -> & _). done. }
  unfold router. rewrite Hlabel, Hdetail. simpl. done.
Qed.

(** ** Pages that expand no link *)

Lemma router_without_links p this :
  expands_links p = false →
  (router p this).1 = this ∧ enqueued (router p this).2 = Ret [].
Proof.
  unfold expands_links, router, defaultHandler. intros Hno.
  destruct (request_label p) as [lbl|].
  - destruct (String.eqb_spec lbl "detail") as [->|Hlbl]; [done|].
    rewrite bool_decide_false in Hno by congruence. simpl in Hno.
    destruct (loadedUrl p) as [baseUrl|]; [|done].
    destruct (String.eqb_spec baseUrl "") as [->|Hbase]; [done|].
    rewrite bool_decide_false in Hno; [done|]. intros [?|?]; congruence.
  - rewrite bool_decide_false in Hno by done. simpl in Hno.
    destruct (loadedUrl p) as [baseUrl|]; [|done].
    destruct (String.eqb_spec baseUrl "") as [->|Hbase]; [done|].
    rewrite bool_decide_false in Hno; [done|]. intros [?|?]; congruence.
Qed.

(** X8.  A page that is fetched under the label [detail], or that has no
    loaded URL, has no effect on the frontier: a run without these pages
    leaves the same crawler object and hands the same requests to the
    engine. *)
Theorem X8_pages_without_link_expansion_can_be_left_out pages this :
  (crawl pages this).1 = (crawl (filter (λ p, expands_links p = true) pages) this).1
  ∧ all_enqueued (crawl pages this).2
    = all_enqueued (crawl (filter (λ p, expands_links p = true) pages) this).2.
Proof.
  revert this. induction pages as [|p pages IH]; intros this; [done|].
  rewrite filter_cons. destruct (decide (expands_links p = true)) as [Hyes|Hno].
  - rewrite !crawl_cons. simpl. destruct (IH (router p this).1) as [-> Henq].
    unfold all_enqueued in *. simpl. by rewrite Henq.
  - apply not_true_is_false in Hno.
    destruct (router_without_links p this Hno) as [Hstate Hret].
    rewrite crawl_cons. simpl. rewrite Hstate.
    destruct (IH this) as [-> Henq]. split; [done|].
    unfold all_enqueued in *. simpl. by rewrite Hret.
Qed.

End FurtherHandlers.

(** ** Classification *)

Section FurtherClassification.
Context `{JsRuntime}.
Implicit Types (this : EcommerceCrawler) (req : Request) (U baseUrl : string).
Implicit Types (p : Page) (pages : list Page).

Lemma isListingUrl_valid (url : string) (patterns : list string) :
  Forall (λ pattern, is_Some (RegExp_new pattern)) patterns →
  isListingUrl url patterns = Ret (matches_some url patterns).
Proof.
  unfold isListingUrl, matches_some, new_RegExp.
  induction 1 as [|pattern patterns [regex Hregex] _ IH]; [done|].
  simpl. rewrite Hregex. simpl. by destruct (RegExp_test regex url).
Qed.

Lemma matches_some_perm (url : string) (patterns patterns' : list string) :
  patterns ≡ₚ patterns' → matches_some url patterns = matches_some url patterns'.
Proof.
  intros Hperm. unfold matches_some. apply eq_true_iff_eq.
  rewrite !existsb_exists. split; intros (x & Hx & Hm); exists x; split; try done.
  - apply list_elem_of_In. rewrite <- Hperm. by apply list_elem_of_In.
  - apply list_elem_of_In. rewrite Hperm. by apply list_elem_of_In.
Qed.

(** X9.  When every pattern of the list compiles, [isListingUrl] and
    [isProductUrl] throw nothing and return whether some pattern matches
    the URL; the order of the patterns then does not matter. *)
Theorem X9_valid_patterns_classify_without_exception (url : string)
    (patterns patterns' : list string) :
  Forall (λ pattern, is_Some (RegExp_new pattern)) patterns →
  patterns ≡ₚ patterns' →
  isListingUrl url patterns = Ret (matches_some url patterns)
  ∧ isProductUrl url patterns = Ret (matches_some url patterns)
  ∧ isListingUrl url patterns' = isListingUrl url patterns.
Proof.
  intros Hvalid Hperm. split; [by apply isListingUrl_valid|].
  split; [by apply (isListingUrl_valid url patterns)|].
  rewrite !isListingUrl_valid; [|done|by rewrite <- Hperm].
  f_equal. symmetry. by apply matches_some_perm.
Qed.

(** X10.  [isListingUrl] on two lists of patterns one after the other:
    the second list is only looked at when the first one returns [false];
    when the first one returns [true] or throws, that is the result.  A
    pattern that does not compile goes unnoticed behind a pattern that
    matches. *)
Theorem X10_patterns_are_tried_in_order (url : string) (patterns1 patterns2 : list string) :
  isListingUrl url (patterns1 ++ patterns2)
  = obind (isListingUrl url patterns1)
          (λ b, if b then Ret true else isListingUrl url patterns2).
Proof.
  unfold isListingUrl. induction patterns1 as [|pattern patterns1 IH]; simpl.
  - by destruct (Array_some _ patterns2).
  - destruct (obind (new_RegExp pattern) _) as [[|]|e]; simpl; done.
Qed.

(** ** Runs with listing patterns that compile *)

Lemma transform_valid baseUrl req this :
  Forall (λ pattern, is_Some (RegExp_new pattern))
         (productListingUrlPatterns (config this)) →
  ∃ kept, (transformRequestFunction baseUrl req this).2 = Ret kept.
Proof.
  intros Hvalid. unfold transformRequestFunction.
  destruct (decide _); [by eexists|].
  rewrite (isListingUrl_valid _ _ Hvalid). destruct (matches_some _ _); by eexists.
Qed.

Lemma enqueueLinks_valid baseUrl (reqs : list Request) this :
  Forall (λ pattern, is_Some (RegExp_new pattern))
         (productListingUrlPatterns (config this)) →
  enqueueLinks (transformRequestFunction baseUrl) reqs this
  = ((claims (map (pair baseUrl) reqs) this).1,
     Ret (kept_requests (claims (map (pair baseUrl) reqs) this).2)).
Proof.
  revert this. induction reqs as [|req reqs IH]; intros this Hvalid; [done|].
  rewrite map_cons, claims_cons. simpl.
  destruct (transform_valid baseUrl req this Hvalid) as [kept Hkept].
  destruct (transform_grows baseUrl req this) as (_ & Hcfg & _).
  destruct (transformRequestFunction baseUrl req this) as [t o]. simpl in *. subst o.
  rewrite IH by (by rewrite Hcfg). simpl. unfold kept_requests. simpl.
  by destruct kept.
Qed.

Lemma router_valid p this :
  Forall (λ pattern, is_Some (RegExp_new pattern))
         (productListingUrlPatterns (config this)) →
  (router p this).1 = (claims (calls_of_page p) this).1
  ∧ enqueued (router p this).2 = Ret (kept_requests (claims (calls_of_page p) this).2).
Proof.
  intros Hvalid. unfold calls_of_page.
  destruct (expands_links p) eqn:Hexp.
  - unfold expands_links in Hexp. apply andb_true_iff in Hexp as [Hlbl Hloaded].
    apply negb_true_iff, bool_decide_eq_false in Hlbl.
    apply negb_true_iff, bool_decide_eq_false in Hloaded.
    assert (router p this = defaultHandler p this) as ->.
    { unfold router. destruct (request_label p) as [lbl|]; [|done].
      destruct (String.eqb_spec lbl "detail") as [->|]; done. }
    unfold defaultHandler. destruct (loadedUrl p) as [baseUrl|]; [|by destruct Hloaded; left].
    destruct (String.eqb_spec baseUrl "") as [->|_]; [by destruct Hloaded; right|].
    simpl. by rewrite enqueueLinks_valid.
  - by apply router_without_links.
Qed.

Lemma crawl_valid pages this :
  Forall (λ pattern, is_Some (RegExp_new pattern))
         (productListingUrlPatterns (config this)) →
  (crawl pages this).1 = (claims (flat_map calls_of_page pages) this).1
  ∧ Forall (λ r, ∃ l, enqueued r = Ret l) (crawl pages this).2
  ∧ all_enqueued (crawl pages this).2
    = kept_requests (claims (flat_map calls_of_page pages) this).2.
Proof.
  revert this. induction pages as [|p pages IH]; intros this Hvalid.
  - simpl. by repeat split.
  - rewrite crawl_cons. simpl. rewrite claims_app. simpl.
    destruct (router_valid p this Hvalid) as [Hstate Hret].
    destruct (claims_grows (calls_of_page p) this) as (_ & Hcfg & _).
    rewrite Hstate. destruct (IH (claims (calls_of_page p) this).1) as (-> & Hall & Henq).
    { by rewrite Hcfg. }
    split; [done|]. split.
    + constructor; [by eexists|done].
    + unfold all_enqueued in *. simpl. rewrite Hret, Henq.
      unfold kept_requests. by rewrite omap_app.
Qed.

(** X11.  When every listing pattern compiles, no handler call of a run
    throws, and the run is the run of the calls of
    [transformRequestFunction] for the links of its pages, page after page:
    it leaves the same [processedUrls] and hands the engine the requests
    that these calls return. *)
Theorem X11_run_with_valid_patterns_never_throws pages this :
  Forall (λ pattern, is_Some (RegExp_new pattern))
         (productListingUrlPatterns (config this)) →
  Forall (λ r, ∃ l, enqueued r = Ret l) (crawl pages this).2
  ∧ processedUrls (crawl pages this).1
    = processedUrls (claims (flat_map calls_of_page pages) this).1
  ∧ all_enqueued (crawl pages this).2
    = kept_requests (claims (flat_map calls_of_page pages) this).2.
Proof.
  intros Hvalid. destruct (crawl_valid pages this Hvalid) as (-> & ? & ?). done.
Qed.

(** X12.  When every listing pattern compiles, the order in which the
    engine hands the pages to the handlers does not change what is in
    [processedUrls] at the end of the run, nor how many requests were
    handed to the engine. *)
Theorem X12_page_order_does_not_change_the_processed_urls pages pages' this :
  Forall (λ pattern, is_Some (RegExp_new pattern))
         (productListingUrlPatterns (config this)) →
  pages ≡ₚ pages' →
  processedUrls (crawl pages this).1 = processedUrls (crawl pages' this).1
  ∧ length (all_enqueued (crawl pages this).2)
    = length (all_enqueued (crawl pages' this).2).
Proof.
  intros Hvalid Hperm.
  destruct (crawl_valid pages this Hvalid) as (Hs & _ & He).
  destruct (crawl_valid pages' this Hvalid) as (Hs' & _ & He').
  assert (flat_map calls_of_page pages ≡ₚ flat_map calls_of_page pages') as Hcalls.
  { clear -Hperm. induction Hperm; simpl.
    - done.
    - by f_equiv.
    - rewrite !(assoc (++)). f_equiv. apply Permutation_app_comm.
    - by etrans. }
  assert (processedUrls (crawl pages this).1 = processedUrls (crawl pages' this).1) as Hset.
  { rewrite Hs, Hs'. rewrite !claims_processedUrls. f_equal.
    apply set_eq. intros U. rewrite !elem_of_list_to_set, !list_elem_of_filter.
    by rewrite Hcalls. }
  split; [done|].
  pose proof (claims_size (flat_map calls_of_page pages) this) as Hn.
  pose proof (claims_size (flat_map calls_of_page pages') this) as Hn'.
  rewrite <- Hs, <- He in Hn. rewrite <- Hs', <- He' in Hn'. rewrite Hset in Hn. lia.
Qed.

End FurtherClassification.

(** ** [normalizeUrl] and [getDomain] in the URL model *)

Section FurtherUrlModel.
Context `{Engine}.

Lemma url_serialize_nonempty (u : Whatwg.url_record) : Whatwg.url_serialize u ≠ [].
Proof.
  unfold Whatwg.url_serialize. intros Heq.
  apply app_eq_nil in Heq as [_ Heq]. discriminate.
Qed.

Lemma string_of_list_ascii_nonempty (l : list ascii) :
  l ≠ [] → string_of_list_ascii l ≠ "".
Proof. by destruct l. Qed.

(** X13.  In the URL model, with every engine, the empty string is an
    unambiguous sentinel: [normalizeUrl] returns it exactly when
    [new URL(url, base)] throws, and it throws for every link, absolute or
    not, when the base is not a URL. *)
Theorem X13_empty_string_only_for_rejected_links (u b : string) :
  (normalizeUrl u b = "" ↔ URL_href u b = None)
  ∧ (Whatwg.href_absolute b = None → normalizeUrl u b = "").
Proof.
  unfold normalizeUrl, URL_href. simpl. unfold Whatwg.href, Whatwg.href_absolute.
  destruct (Whatwg.basic_url_parse (Chars.chars b) None) as [base|]; simpl; [|done].
  destruct (Whatwg.basic_url_parse (Chars.chars u) (Some base)) as [parsed|]; simpl; [|done].
  split; [|done]. split; [|done].
  intros Hempty. exfalso.
  by apply (string_of_list_ascii_nonempty _ (url_serialize_nonempty parsed)).
Qed.

Lemma same_authority_refl u : same_authority u u.
Proof. by repeat split. Qed.

Lemma same_authority_trans u v w :
  same_authority u v → same_authority v w → same_authority u w.
Proof.
  intros (? & ? & ? & ? & ?) (? & ? & ? & ? & ?). repeat split; congruence.
Qed.

Lemma fragment_state_authority u input : same_authority (Whatwg.fragment_state u input) u.
Proof. by repeat split. Qed.

Lemma query_state_authority u input : same_authority (Whatwg.query_state u input) u.
Proof.
  unfold Whatwg.query_state. destruct (Chars.span_until _ input) as [q [|c f]];
    by repeat split.
Qed.

Lemma query_or_fragment_authority u input :
  same_authority (Whatwg.query_or_fragment u input) u.
Proof.
  unfold Whatwg.query_or_fragment. destruct input as [|c rest]; [by repeat split|].
  destruct (Chars.is_char "?" c);
    [apply query_state_authority|apply fragment_state_authority].
Qed.

Lemma path_state_authority u buf input : same_authority (Whatwg.path_state u buf input) u.
Proof.
  unfold Whatwg.path_state. destruct (Whatwg.path_loop _ _ _ _) as [p rest].
  eapply same_authority_trans; [apply query_or_fragment_authority|]. by repeat split.
Qed.





Lemma path_start_state_authority u input :
  same_authority (Whatwg.path_start_state u input) u.
Proof.
  unfold Whatwg.path_start_state. destruct input as [|c rest].
  - destruct (Whatwg.is_special _); [apply path_state_authority|apply same_authority_refl].
  - destruct (Whatwg.is_special _); [apply path_state_authority|].
    destruct (Chars.is_char "?" c); [apply query_state_authority|].
    destruct (Chars.is_char "#" c); [apply fragment_state_authority|].
    apply path_state_authority.
Qed.

Lemma host_parse_nonempty (l : list ascii) (hst : Whatwg.url_host) :
  Whatwg.host_parse l false = Some hst → Whatwg.host_serialize hst ≠ [].
Proof.
  unfold Whatwg.host_parse. destruct l as [|c rest]; [done|].
  destruct (Chars.is_char "[" c).
  - destruct (reverse rest) as [|c' inner]; [done|].
    destruct (Chars.is_char "]" c'); [|done].
    destruct (Whatwg.ipv6_parse _) as [pieces|]; [|done]. by intros [= <-].
  - destruct (Whatwg.domain_to_ascii _) as [d|] eqn:Hd; [|done]. simpl.
    destruct (existsb _ d); [done|].
    destruct (Whatwg.ends_in_a_number d).
    + destruct (Whatwg.ipv4_parse d) as [n|]; [|done]. intros [= <-]. simpl.
      unfold Whatwg.ipv4_serialize. intros Heq.
      apply app_eq_nil in Heq as [_ Heq]. discriminate.
    + intros [= <-]. simpl. intros ->.
      unfold Whatwg.domain_to_ascii in Hd.
      destruct (if _ : bool then _ else _) as [[|]|]; done.
Qed.

Lemma host_state_special u hostport rest v :
  Whatwg.is_special (Whatwg.scheme u) = true →
  Whatwg.host_state u hostport rest = Some v →
  ∃ hst, Whatwg.host v = Some hst ∧ Whatwg.host_serialize hst ≠ [].
Proof.
  intros Hspecial. unfold Whatwg.host_state. rewrite Hspecial. simpl.
  destruct (Whatwg.split_port hostport false) as [h [p|]].
  - destruct (Chars.leq h []); [done|].
    destruct (Whatwg.host_parse h false) as [hst|] eqn:Hhost; [|done]. simpl.
    destruct (negb _); [done|].
    destruct (Chars.digits_value 10 p) as [n|]; [|done]. simpl.
    destruct (65535 <? n)%N; [done|]. intros [= <-]. exists hst.
    split; [|by eapply host_parse_nonempty].
    by destruct (path_start_state_authority
                   (Whatwg.set_port
                      (if Chars.leq p [] then None
                       else if bool_decide (Whatwg.default_port (Whatwg.scheme u) = Some n)
                            then None else Some n)
                      (Whatwg.set_host (Some hst) u)) rest) as (_ & _ & _ & -> & _).
  - destruct (Chars.leq h []); [done|].
    destruct (Whatwg.host_parse h false) as [hst|] eqn:Hhost; [|done]. simpl.
    intros [= <-]. exists hst. split; [|by eapply host_parse_nonempty].
    by destruct (path_start_state_authority (Whatwg.set_host (Some hst) u) rest)
      as (_ & _ & _ & -> & _).
Qed.

(** X18.  For every valid URL with a special scheme other than [file]
    (http, https, ws, wss, ftp), [getDomain] is not empty, with every
    engine and so also for an international domain name: with such a
    scheme the empty string stands for a string that is not a URL. *)
Theorem X18_special_urls_have_a_domain (u : string) (sch rest : list ascii) :
  Whatwg.scheme_split (Whatwg.clean (Chars.chars u)) = Some (sch, rest) →
  Whatwg.is_special sch = true →
  Whatwg.is_file sch = false →
  is_Some (Whatwg.href_absolute u) →
  getDomain u ≠ "".
Proof.
  intros Hscheme Hspecial Hfile [h Hvalid].
  unfold getDomain, URL_hostname. unfold Whatwg.href_absolute in Hvalid.
  destruct (Whatwg.basic_url_parse (Chars.chars u) None) as [v|] eqn:Hparse; [|done].
  simpl. clear h Hvalid.
  unfold Whatwg.basic_url_parse in Hparse. rewrite Hscheme, Hfile, Hspecial in Hparse.
  simpl in Hparse.
  unfold Whatwg.special_authority_state, Whatwg.authority_state in Hparse.
  destruct (Chars.span_until _ _) as [auth after].
  assert (∃ hst, Whatwg.host v = Some hst ∧ Whatwg.host_serialize hst ≠ [])
    as (hst & -> & Hne).
  { destruct (Whatwg.split_credentials auth) as [[userinfo hostport]|].
    - destruct (Chars.leq hostport []); [done|].
      destruct (Chars.span_until _ userinfo) as [user pass].
      by eapply host_state_special in Hparse.
    - by eapply host_state_special in Hparse. }
  simpl. by apply string_of_list_ascii_nonempty.
Qed.

Lemma chars_app (s t : string) :
  Chars.chars (s ++ t)%string = Chars.chars s ++ Chars.chars t.
Proof. unfold Chars.chars. induction s as [|c s IH]; simpl; [done|]. by rewrite IH. Qed.

Lemma drop_while_space_app (pre l : list ascii) :
  forallb Whatwg.is_c0_or_space pre = true →
  Chars.drop_while Whatwg.is_c0_or_space (pre ++ l)
  = Chars.drop_while Whatwg.is_c0_or_space l.
Proof.
  induction pre as [|c pre IH]; simpl; [done|].
  intros [-> Hpre]%andb_true_iff. by apply IH.
Qed.

Lemma forallb_reverse (f : ascii → bool) (l : list ascii) :
  forallb f l = true → forallb f (reverse l) = true.
Proof.
  induction l as [|c l IH]; simpl; [done|].
  intros [Hc Hl]%andb_true_iff. rewrite reverse_cons, forallb_app. simpl.
  by rewrite IH, Hc.
Qed.

Lemma trim_space_app (l post : list ascii) :
  forallb Whatwg.is_c0_or_space post = true →
  reverse (Chars.drop_while Whatwg.is_c0_or_space
             (reverse (Chars.drop_while Whatwg.is_c0_or_space (l ++ post))))
  = reverse (Chars.drop_while Whatwg.is_c0_or_space
               (reverse (Chars.drop_while Whatwg.is_c0_or_space l))).
Proof.
  intros Hpost. induction l as [|c l IH].
  - simpl. rewrite <- (app_nil_r post) at 1. by rewrite drop_while_space_app.
  - simpl. destruct (Whatwg.is_c0_or_space c); [done|].
    rewrite (app_comm_cons l post c), reverse_app.
    rewrite drop_while_space_app; [done|]. by apply forallb_reverse.
Qed.

(** X15.  Spaces and control characters around a link do not count:
    [normalizeUrl] returns for the padded link what it returns for the
    link, so that both are the same URL for [processedUrls]. *)
Theorem X15_surrounding_space_is_ignored (pre post link b : string) :
  forallb Whatwg.is_c0_or_space (Chars.chars pre) = true →
  forallb Whatwg.is_c0_or_space (Chars.chars post) = true →
  normalizeUrl (pre ++ link ++ post)%string b = normalizeUrl link b.
Proof.
  intros Hpre Hpost.
  assert (Whatwg.clean (Chars.chars (pre ++ link ++ post)%string)
          = Whatwg.clean (Chars.chars link)) as Hclean.
  { unfold Whatwg.clean. rewrite !chars_app.
    by rewrite drop_while_space_app, trim_space_app. }
  unfold normalizeUrl, URL_href. simpl. unfold Whatwg.href, Whatwg.basic_url_parse.
  by rewrite Hclean.
Qed.

End FurtherUrlModel.

(** ** The records of the extraction *)

Section FurtherExtraction.
Context `{JsRuntime}.

(** X17.  The function evaluated in the page throws nothing, and the link
    of a record it returns is never the empty string: it is null, or the
    non-empty [href] of an anchor with an [href] attribute inside an
    element of the class [rilrtl-products-list__item]. *)
Theorem X17_links_of_records_are_null_or_not_empty (d : Dom.Document) :
  ∃ records,
    extract_products d = Ret records
    ∧ Forall (λ r, ∀ h, link r = Some h →
                h ≠ ""
                ∧ ∃ card a,
                    card ∈ elements_of_class "rilrtl-products-list__item" d
                    ∧ a ∈ flat_map Dom.subtree (Dom.children card)
                    ∧ Dom.tagName a = "a"
                    ∧ is_Some (Dom.getAttribute "href" (Dom.attributes a))
                    ∧ Dom.href d a = h)
             records.
Proof.
  eexists. split; [apply extract_products_cards|].
  apply Forall_forall. intros r Hr h Hh.
  apply list_elem_of_fmap in Hr as (card & -> & Hcard).
  unfold card_record in Hh. simpl in Hh.
  destruct (head _) as [a|] eqn:Hhead; [|done].
  destruct (String.eqb_spec (Dom.href d a) "") as [|Hne]; [done|].
  injection Hh as <-. split; [done|]. exists card, a.
  apply head_Some_elem_of in Hhead. apply list_elem_of_In, filter_In in Hhead as [Ha Hp].
  apply bool_decide_eq_true in Hp as [Htag Hattr].
  repeat split; try done. by apply list_elem_of_In.
Qed.

End FurtherExtraction.

(** ** The listing patterns of [main.ts] *)

Section PatternsOfMain.
Context `{Engine}.

(** A pattern that the model reads is a pattern that [new RegExp] accepts. *)
Lemma RegExp_new_read (pattern : string) (r : Regex.regex) :
  Regex.compile pattern = Regex.Read r → is_Some (RegExp_new pattern).
Proof. intros Hread. cbn [RegExp_new WhatwgRuntime]. rewrite Hread. by eexists. Qed.

Lemma is_char_dot (c : ascii) : Chars.is_char "." c = true → c = "."%char.
Proof.
  unfold Chars.is_char, Chars.one_of. simpl. rewrite orb_false_r. apply Ascii.eqb_eq.
Qed.

Lemma matches_leading_chars subject (r : Regex.regex) s k :
  Regex.matches subject r s k = true → starts_like_chars (leading_chars r) s = true.
Proof.
  revert s k. induction r as [|c| | | | | | |r1 _ r2 IH| |]; intros s k; try done.
  - destruct s as [|c' s]; [done|]. simpl. intros [Hc _]%andb_true_iff.
    apply Ascii.eqb_eq in Hc as <-.
    rewrite andb_true_r. destruct (Chars.is_char "." c) eqn:Hdot; [|apply Ascii.eqb_refl].
    by apply is_char_dot in Hdot as ->.
  - destruct s as [|c' s]; [done|]. simpl. by intros [-> _]%andb_true_iff.
  - destruct r1 as [|c| | | | | | | | |]; try done.
    + destruct s as [|c' s]; [done|]. cbn [Regex.matches leading_chars starts_like_chars].
      intros [Hc Hrest]%andb_true_iff. apply Ascii.eqb_eq in Hc as <-.
      rewrite (IH _ _ Hrest), andb_true_r.
      destruct (Chars.is_char "." c) eqn:Hdot; [|apply Ascii.eqb_refl].
      by apply is_char_dot in Hdot as ->.
    + destruct s as [|c' s]; [done|]. cbn [Regex.matches leading_chars starts_like_chars].
      intros [-> Hrest]%andb_true_iff. by rewrite (IH _ _ Hrest).
    + cbn [Regex.matches leading_chars]. intros [_ Hrest]%andb_true_iff. by eapply IH.
Qed.

Lemma search_anchored subject (r : Regex.regex) s :
  (length s < length subject)%nat →
  Regex.search subject (Regex.Seq Regex.Bol r) s = false.
Proof.
  induction s as [|c s IH]; intros Hlen.
  - cbn [Regex.search Regex.matches]. rewrite orb_false_r.
    apply andb_false_iff. left. apply Nat.eqb_neq. lia.
  - cbn [Regex.search Regex.matches]. rewrite IH by (simpl in Hlen; lia).
    rewrite orb_false_r. apply andb_false_iff. left. apply Nat.eqb_neq. lia.
Qed.

Lemma test_anchored (r : Regex.regex) (s : string) :
  Regex.test (Regex.Seq Regex.Bol r) s = true →
  starts_like_chars (leading_chars r) (Chars.chars s) = true.
Proof.
  unfold Regex.test. destruct (Chars.chars s) as [|c l] eqn:Hs.
  - cbn [Regex.search Regex.matches]. rewrite orb_false_r.
    intros [_ Hm]%andb_true_iff. by eapply matches_leading_chars.
  - cbn [Regex.search]. rewrite (search_anchored (c :: l) r l) by (simpl; lia).
    rewrite orb_false_r. cbn [Regex.matches].
    intros [_ Hm]%andb_true_iff. by eapply matches_leading_chars.
Qed.

(** X19.  In a run of the crawler that [main] constructs, on any pages in
    any order, every URL that enters [processedUrls] starts with
    [https://www.myntra.com/] or [https://www.ajio.com/], where the dots,
    which the patterns of [main] do not escape, stand for any character
    but a line terminator. *)
Theorem X19_main_claims_only_urls_of_its_two_sites pages (U : string) :
  U ∈ processedUrls (crawl pages (run (constructor main_config)).1).1 →
  starts_like "https://www.myntra.com/" U || starts_like "https://www.ajio.com/" U = true.
Proof.
  cbn [run fst].
  assert (Forall (λ pattern, is_Some (RegExp_new pattern))
                 (productListingUrlPatterns (config (constructor main_config)))) as Hvalid.
  { repeat constructor; eapply RegExp_new_read; vm_compute; reflexivity. }
  destruct (crawl_valid pages _ Hvalid) as (-> & _ & _).
  rewrite claims_processedUrls. rewrite elem_of_union, elem_of_list_to_set.
  intros [Hin|Hin]; [by apply elem_of_empty in Hin|].
  apply list_elem_of_filter in Hin as [Hclass _].
  unfold classified_listing in Hclass. rewrite (isListingUrl_valid _ _ Hvalid) in Hclass.
  unfold matches_some in Hclass.
  cbn [constructor config productListingUrlPatterns main_config existsb] in Hclass.
  rewrite orb_false_r in Hclass.
  destruct (_ || _) eqn:Hsome in Hclass; [clear Hclass|done].
  apply orb_true_iff in Hsome as [Hm|Hm]; apply orb_true_iff; [left|right].
  - revert Hm. cbn [RegExp_new WhatwgRuntime].
    match goal with |- context [Regex.compile ?p] =>
      let r := eval vm_compute in (Regex.compile p) in
      replace (Regex.compile p) with r by (vm_compute; reflexivity) end.
    cbn [from_option]. intros Hm. exact (test_anchored _ _ Hm).
  - revert Hm. cbn [RegExp_new WhatwgRuntime].
    match goal with |- context [Regex.compile ?p] =>
      let r := eval vm_compute in (Regex.compile p) in
      replace (Regex.compile p) with r by (vm_compute; reflexivity) end.
    cbn [from_option]. intros Hm. exact (test_anchored _ _ Hm).
Qed.

End PatternsOfMain.

(** * Evaluations *)

#[local] Existing Instance plain_engine.

(** ** Evaluations with the implemented runtime *)

Example href_resolves_relative_links :
  map (λ link, URL_href link ajio)
      ["/shop/sale/c/123"; "men/../women/c/2?page=2#top"; "//assets.ajio.com/a.css";
       "HTTPS://WWW.AJIO.COM:443/x"; "mailto:care@ajio.com"; "http://a b/"; "http://ajio.com:99999/"]
  = [Some "https://www.ajio.com/shop/sale/c/123";
     Some "https://www.ajio.com/women/c/2?page=2#top";
     Some "https://assets.ajio.com/a.css";
     Some "https://www.ajio.com/x";
     Some "mailto:care@ajio.com";
     None;
     None].
Proof. vm_compute. reflexivity. Qed.

Example href_needs_a_base_that_is_a_url :
  URL_href "https://www.ajio.com/" "www.ajio.com" = None.
Proof. vm_compute. reflexivity. Qed.

Example listing_patterns_of_main :
  map (λ u, isListingUrl u (productListingUrlPatterns main_config))
      ["https://www.ajio.com/shop/sale/c/123"; "https://www.ajio.com/";
       "https://www.myntra.com/men-tshirts"; "https://www.myntra.com/men/tshirts"; ""]
  = [Ret true; Ret false; Ret true; Ret false; Ret false].
Proof. vm_compute. reflexivity. Qed.

Example product_patterns_of_main :
  map (λ u, isProductUrl u (productUrlPatterns main_config))
      ["https://www.myntra.com/tshirts/roadster/1700944/buy"; "https://www.ajio.com/p/460";
       "https://www.ajio.com/shop/sale"]
  = [Ret false; Ret true; Ret false].
Proof. vm_compute. reflexivity. Qed.

(** The link [/shop/sale/c/123] on the page [https://www.ajio.com/] is
    normalized, classified as a listing URL, claimed and handed to the
    engine under [detail]. *)
Example first_discovery_is_enqueued :
  let r := defaultHandler (listing_page ajio ["/shop/sale/c/123"]) (constructor main_config) in
  enqueued r.2 = Ret [detail_request "/shop/sale/c/123"]
  ∧ elements (processedUrls r.1) = ["https://www.ajio.com/shop/sale/c/123"].
Proof. vm_compute. repeat split. Qed.

(** A page fetched under [detail] without product cards. *)
Example no_cards_no_records :
  logged (router {| request_label := Some "detail"; loadedUrl := Some ajio; links := ["/x"];
                    document := {| Dom.baseURI := ajio; Dom.roots := [] |} |}
                 (constructor main_config)).2
  = [Info_processing (Some ajio); Info_extracted []].
Proof. vm_compute. reflexivity. Qed.

(** Three calls from two pages: the first call claims
    [https://www.ajio.com/shop/sale/c/123]. *)
Example one_claim_for_three_calls :
  let calls := [(ajio, detail_request "/shop/sale/c/123");
                ("https://www.ajio.com/men/", detail_request "../shop/sale/c/123");
                (ajio, detail_request "https://www.ajio.com/shop/sale/c/123")] in
  let this := constructor main_config in
  (calls !! 0%nat = Some (ajio, detail_request "/shop/sale/c/123")
   ∧ (claims calls this).2 !! 0%nat = Some (Ret (Some (detail_request "/shop/sale/c/123"))))
  ∧ (claims calls this).2 !! 1%nat = Some (Ret None)
  ∧ (claims calls this).2 !! 2%nat = Some (Ret None)
  ∧ accepted_count "https://www.ajio.com/shop/sale/c/123" calls (claims calls this).2 = 1%nat.
Proof.
  intros calls this.
  assert (calls !! 0%nat = Some (ajio, detail_request "/shop/sale/c/123")) as Hcall
    by reflexivity.
  assert ((claims calls this).2 !! 0%nat
          = Some (Ret (Some (detail_request "/shop/sale/c/123")))) as Hacc
    by (vm_compute; reflexivity).
  destruct (claimed_url_is_accepted_once calls this 0 ajio _ Hcall Hacc)
    as (Hlater & Hcount & _ & _).
  split; [split; assumption|]. split; [|split].
  - apply (Hlater 1%nat "https://www.ajio.com/men/" (detail_request "../shop/sale/c/123"));
      [lia|reflexivity|vm_compute; reflexivity].
  - apply (Hlater 2%nat ajio (detail_request "https://www.ajio.com/shop/sale/c/123"));
      [lia|reflexivity|vm_compute; reflexivity].
  - exact Hcount.
Defined.


(** C3 fails as stated: with the listing pattern [.*] and [maxPages = 1],
    the link [https://], which the URL constructor rejects, is handed to
    the engine, and so is a second link. *)
Lemma C3_counterexample :
  let cfg := set_maxPages (number 1) (set_productListingUrlPatterns [".*"] main_config) in
  URL_href "https://" ajio = None
  ∧ maxPages (config (constructor cfg)) = number 1
  ∧ enqueued (defaultHandler (listing_page ajio ["https://"; "/x"]) (constructor cfg)).2
    = Ret [detail_request "https://"; detail_request "/x"].
Proof. vm_compute. repeat split. Qed.

(** C3, at a page with three links of which the first and the third
    normalize to the same listing URL. *)
Lemma C3_witness :
  let p := listing_page ajio ["/shop/sale/c/123"; "/x"; "/shop/sale/c/123"] in
  let this := constructor main_config in
  (loadedUrl p = Some ajio ∧ ajio ≠ ""
   ∧ enqueued (defaultHandler p this).2 = Ret [detail_request "/shop/sale/c/123"])
  ∧ Forall (λ r, label r = Some "detail" ∧ url r ∈ links p) [detail_request "/shop/sale/c/123"].
Proof.
  intros p this.
  assert (loadedUrl p = Some ajio) as Hloaded by reflexivity.
  assert (ajio ≠ "") as Hbase by discriminate.
  assert (enqueued (defaultHandler p this).2 = Ret [detail_request "/shop/sale/c/123"])
    as Hret by (vm_compute; reflexivity).
  split; [repeat split; assumption|].
  exact (proj1 (proj2 (C3_frontier_routing_rule p ajio this _ Hloaded Hbase Hret))).
Defined.

(** C4 fails as stated: [javascript:void(0)] is a URL for the URL
    constructor, so that [normalizeUrl] returns it and not the empty
    string; with a listing pattern that matches it, the link is put into
    [processedUrls] and handed to the engine. *)
Lemma C4_counterexample :
  let cfg := set_productListingUrlPatterns ["^javascript:"] main_config in
  normalizeUrl "javascript:void(0)" ajio = "javascript:void(0)"
  ∧ enqueued (defaultHandler (listing_page ajio ["javascript:void(0)"]) (constructor cfg)).2
    = Ret [detail_request "javascript:void(0)"]
  ∧ elements (processedUrls (defaultHandler (listing_page ajio ["javascript:void(0)"])
                                            (constructor cfg)).1)
    = ["javascript:void(0)"].
Proof. vm_compute. repeat split. Qed.

(** C4, at a page whose first link the URL constructor rejects. *)
Lemma C4_witness :
  let p := listing_page ajio ["https://"; "/shop/sale/c/123"] in
  let this := constructor main_config in
  (loadedUrl p = Some ajio
   ∧ isListingUrl "" (productListingUrlPatterns (config this)) ≠ Ret true
   ∧ enqueued (defaultHandler p this).2 = Ret [detail_request "/shop/sale/c/123"])
  ∧ (URL_href "https://" ajio = None → normalizeUrl "https://" ajio = "")
  ∧ ("" ∈ processedUrls (defaultHandler p this).1 → "" ∈ processedUrls this).
Proof.
  intros p this.
  assert (loadedUrl p = Some ajio) as Hloaded by reflexivity.
  assert (isListingUrl "" (productListingUrlPatterns (config this)) ≠ Ret true) as Hempty
    by (vm_compute; discriminate).
  assert (enqueued (defaultHandler p this).2 = Ret [detail_request "/shop/sale/c/123"])
    as Hret by (vm_compute; reflexivity).
  split; [repeat split; assumption|].
  destruct (C4_rejected_link_is_dropped p ajio this _ Hloaded Hempty Hret)
    as (Hnorm & _ & _ & Hset).
  split; [apply Hnorm|apply Hset].
Defined.

(** C5 fails as stated: with the listing pattern [*.ajio.com/*], which is
    not a regular expression, the constructor and [run] go through and the
    engine is started; the exception comes from the handler of the first
    page. *)
Lemma C5_counterexample :
  let cfg := set_productListingUrlPatterns ["*.ajio.com/*"] main_config in
  RegExp_new "*.ajio.com/*" = None
  ∧ seeds (run (constructor cfg)).2 = [ajio]
  ∧ enqueued (router (listing_page ajio ["/shop/sale/c/123"]) (run (constructor cfg)).1).2
    = Throw SyntaxError.
Proof. vm_compute. repeat split. Qed.

(** C6 fails as stated: with [productCardSelectors = [".product-base"]]
    and a page that has one element of that class, the handler extracts no
    record. *)
Lemma C6_counterexample :
  productCardSelectors (config (constructor main_config)) = [".product-base"]
  ∧ Dom.document_querySelectorAll (document myntra_page) ".product-base" = Ret [myntra_card]
  ∧ logged (router myntra_page (constructor main_config)).2
    = [Info_processing (Some "https://www.myntra.com/men-tshirts"); Info_extracted []].
Proof. vm_compute. repeat split. Qed.

(** C7 fails as stated: [::not a url::] has no scheme and is resolved
    against the base as a relative reference. *)
Lemma C7_counterexample :
  normalizeUrl "::not a url::" ajio = "https://www.ajio.com/::not%20a%20url::".
Proof. vm_compute. repeat split. Qed.

(** C7, at an absolute URL that is not in canonical form. *)
Lemma C7_witness :
  (is_Some (Whatwg.href_absolute "https://www.myntra.com/men-tshirts")
   ∧ absolute_form "HTTPS://www.AJIO.com:443/shop/../men/c/1" = true)
  ∧ normalizeUrl "HTTPS://www.AJIO.com:443/shop/../men/c/1" "https://www.myntra.com/men-tshirts"
    = "https://www.ajio.com/men/c/1".
Proof.
  assert (is_Some (Whatwg.href_absolute "https://www.myntra.com/men-tshirts")) as Hb
    by (vm_compute; eauto).
  assert (absolute_form "HTTPS://www.AJIO.com:443/shop/../men/c/1" = true) as Hu
    by reflexivity.
  split; [split; assumption|].
  exact (proj1 (C7_absolute_url_normalizes_to_canonical_form _ _ Hb Hu)).
Defined.

(** A seed that is a listing URL, in the call for a link to it. *)
Example seed_is_claimed_as_a_link :
  let seed := "https://www.ajio.com/men/c/1" in
  let cfg := set_startUrls [seed] main_config in
  let calls := [(seed, detail_request "/women/c/2")] in
  (seed ∈ startUrls cfg
   ∧ isListingUrl (normalizeUrl seed seed) (productListingUrlPatterns cfg) = Ret true
   ∧ accepted_count (normalizeUrl seed seed) calls (claims calls (run (constructor cfg)).1).2
     = 0%nat)
  ∧ seeds (run (constructor cfg)).2 = [seed]
  ∧ (transformRequestFunction seed (detail_request seed)
       (claims calls (run (constructor cfg)).1).1).2
    = Ret (Some (detail_request seed)).
Proof.
  intros seed cfg calls.
  assert (seed ∈ startUrls cfg) as Hseed by (apply list_elem_of_here).
  assert (isListingUrl (normalizeUrl seed seed) (productListingUrlPatterns cfg) = Ret true)
    as Hl by (vm_compute; reflexivity).
  assert (accepted_count (normalizeUrl seed seed) calls
            (claims calls (run (constructor cfg)).1).2 = 0%nat) as Hcount
    by (vm_compute; reflexivity).
  split; [repeat split; assumption|].
  destruct (seed_is_claimed_by_its_first_call cfg seed seed (Some "detail") calls
              Hseed Hl Hcount) as (Hseeds & _ & _ & Hclaim).
  split; [exact Hseeds|]. unfold detail_request. rewrite Hclaim. reflexivity.
Defined.



(** ** Evaluations of the further properties *)

(** X3, at two calls of one page in both orders. *)
Lemma X3_witness :
  let calls := [(ajio, detail_request "/men/c/1"); (ajio, detail_request "/women/c/2")] in
  let calls' := [(ajio, detail_request "/women/c/2"); (ajio, detail_request "/men/c/1")] in
  calls ≡ₚ calls'
  ∧ processedUrls (claims calls (constructor main_config)).1
    = processedUrls (claims calls' (constructor main_config)).1.
Proof.
  intros calls calls'.
  assert (calls ≡ₚ calls') as Hperm by apply perm_swap.
  split; [exact Hperm|].
  exact (X3_processed_urls_do_not_depend_on_the_order calls calls' _ Hperm).
Defined.

(** X6, at a page with a listing link and another link. *)
Lemma X6_witness :
  let p := listing_page ajio ["/x"; "/men/c/1"] in
  enqueued (defaultHandler p (constructor main_config)).2 = Ret [detail_request "/men/c/1"]
  ∧ sublist [detail_request "/men/c/1"]
            (map (λ u, {| url := u; label := Some "detail" |}) (links p)).
Proof.
  intros p.
  assert (enqueued (defaultHandler p (constructor main_config)).2
          = Ret [detail_request "/men/c/1"]) as Hret by (vm_compute; reflexivity).
  split; [exact Hret|].
  exact (X6_enqueued_requests_are_a_sublist_of_the_links p _ _ Hret).
Defined.

(** X7, at the page of a request that the page of the seed enqueued. *)
Lemma X7_witness :
  let p0 := listing_page ajio ["/men/c/1"] in
  let this := constructor main_config in
  let p := {| request_label := Some "detail";
              loadedUrl := Some "https://www.ajio.com/men/c/1";
              links := ["/women/c/2"];
              document := {| Dom.baseURI := "https://www.ajio.com/men/c/1";
                             Dom.roots := [] |} |} in
  (enqueued (router p0 this).2 = Ret [detail_request "/men/c/1"]
   ∧ detail_request "/men/c/1" ∈ [detail_request "/men/c/1"]
   ∧ request_label p = label (detail_request "/men/c/1"))
  ∧ enqueued (router p (router p0 this).1).2 = Ret [].
Proof.
  intros p0 this p.
  assert (enqueued (router p0 this).2 = Ret [detail_request "/men/c/1"]) as Hret
    by (vm_compute; reflexivity).
  assert (detail_request "/men/c/1" ∈ [detail_request "/men/c/1"]) as Hin
    by apply list_elem_of_here.
  assert (request_label p = label (detail_request "/men/c/1")) as Hlabel by reflexivity.
  split; [repeat split; assumption|].
  exact (proj2 (proj2 (X7_links_of_enqueued_pages_are_not_followed
                         p0 this _ _ p (router p0 this).1 Hret Hin Hlabel))).
Defined.

(** X9, at the listing patterns of [main.ts] in both orders. *)
Lemma X9_witness :
  let patterns := productListingUrlPatterns main_config in
  let url := "https://www.ajio.com/men/c/1" in
  (Forall (λ pattern, is_Some (RegExp_new pattern)) patterns
   ∧ patterns ≡ₚ reverse patterns)
  ∧ isListingUrl url patterns = Ret (matches_some url patterns)
  ∧ isListingUrl url (reverse patterns) = isListingUrl url patterns.
Proof.
  intros patterns url.
  assert (Forall (λ pattern, is_Some (RegExp_new pattern)) patterns) as Hvalid.
  { repeat constructor; eapply RegExp_new_read; vm_compute; reflexivity. }
  assert (patterns ≡ₚ reverse patterns) as Hperm by apply perm_swap.
  split; [split; assumption|].
  destruct (X9_valid_patterns_classify_without_exception url patterns (reverse patterns)
              Hvalid Hperm) as (Hl & _ & Hr).
  split; assumption.
Defined.

(** X11, at a run of a listing page and a detail page. *)
Lemma X11_witness :
  let pages := [listing_page ajio ["/men/c/1"; "/x"]; myntra_page] in
  let this := constructor main_config in
  Forall (λ pattern, is_Some (RegExp_new pattern)) (productListingUrlPatterns (config this))
  ∧ Forall (λ r, ∃ l, enqueued r = Ret l) (crawl pages this).2
  ∧ all_enqueued (crawl pages this).2
    = kept_requests (claims (flat_map calls_of_page pages) this).2.
Proof.
  intros pages this.
  assert (Forall (λ pattern, is_Some (RegExp_new pattern))
                 (productListingUrlPatterns (config this))) as Hvalid.
  { repeat constructor; eapply RegExp_new_read; vm_compute; reflexivity. }
  split; [exact Hvalid|].
  destruct (X11_run_with_valid_patterns_never_throws pages this Hvalid) as (Hall & _ & Henq).
  split; assumption.
Defined.

(** X12, at two listing pages with a common link, in both orders. *)
Lemma X12_witness :
  let p1 := listing_page ajio ["/men/c/1"; "/women/c/2"] in
  let p2 := listing_page "https://www.ajio.com/women/" ["../men/c/1"; "/kids/c/3"] in
  let this := constructor main_config in
  (Forall (λ pattern, is_Some (RegExp_new pattern)) (productListingUrlPatterns (config this))
   ∧ [p1; p2] ≡ₚ [p2; p1])
  ∧ processedUrls (crawl [p1; p2] this).1 = processedUrls (crawl [p2; p1] this).1.
Proof.
  intros p1 p2 this.
  assert (Forall (λ pattern, is_Some (RegExp_new pattern))
                 (productListingUrlPatterns (config this))) as Hvalid.
  { repeat constructor; eapply RegExp_new_read; vm_compute; reflexivity. }
  assert ([p1; p2] ≡ₚ [p2; p1]) as Hperm by apply perm_swap.
  split; [split; assumption|].
  exact (proj1 (X12_page_order_does_not_change_the_processed_urls _ _ this Hvalid Hperm)).
Defined.


(** X15, at a link between a space and a newline. *)
Lemma X15_witness :
  let newline := String (ascii_of_nat 10) "" in
  (forallb Whatwg.is_c0_or_space (Chars.chars " ") = true
   ∧ forallb Whatwg.is_c0_or_space (Chars.chars newline) = true)
  ∧ normalizeUrl (" " ++ "/men/c/1" ++ newline)%string ajio = normalizeUrl "/men/c/1" ajio.
Proof.
  intros newline.
  assert (forallb Whatwg.is_c0_or_space (Chars.chars " ") = true) as Hpre by reflexivity.
  assert (forallb Whatwg.is_c0_or_space (Chars.chars newline) = true) as Hpost
    by reflexivity.
  split; [split; assumption|].
  exact (X15_surrounding_space_is_ignored " " newline "/men/c/1" ajio Hpre Hpost).
Defined.


(** X18, at the seed of [main.ts]. *)
Lemma X18_witness :
  let sch := Chars.chars "https" in
  let rest := Chars.chars "//www.ajio.com/" in
  (Whatwg.scheme_split (Whatwg.clean (Chars.chars ajio)) = Some (sch, rest)
   ∧ Whatwg.is_special sch = true
   ∧ Whatwg.is_file sch = false
   ∧ is_Some (Whatwg.href_absolute ajio))
  ∧ getDomain ajio ≠ "".
Proof.
  intros sch rest.
  assert (Whatwg.scheme_split (Whatwg.clean (Chars.chars ajio)) = Some (sch, rest))
    as Hscheme by (vm_compute; reflexivity).
  assert (Whatwg.is_special sch = true) as Hspecial by reflexivity.
  assert (Whatwg.is_file sch = false) as Hfile by reflexivity.
  assert (is_Some (Whatwg.href_absolute ajio)) as Hvalid
    by (vm_compute; eexists; reflexivity).
  split; [repeat split; assumption|].
  exact (X18_special_urls_have_a_domain ajio sch rest Hscheme Hspecial Hfile Hvalid).
Defined.

(** X19, at the page of the seed with one listing link. *)
Lemma X19_witness :
  let pages := [listing_page ajio ["/men/c/1"]] in
  let U := "https://www.ajio.com/men/c/1" in
  U ∈ processedUrls (crawl pages (run (constructor main_config)).1).1
  ∧ starts_like "https://www.myntra.com/" U || starts_like "https://www.ajio.com/" U = true.
Proof.
  intros pages U.
  assert (U ∈ processedUrls (crawl pages (run (constructor main_config)).1).1) as Hin.
  { apply elem_of_elements.
    replace (elements _) with [U] by (vm_compute; reflexivity).
    apply list_elem_of_here. }
  split; [exact Hin|].
  exact (X19_main_claims_only_urls_of_its_two_sites pages U Hin).
Defined.
